(** * hanscnc report monitor: a shallow embedding of [monitor.py]

    The monitor fetches one investor-relations listing page, extracts report
    entries from it, compares them with the persisted set of seen hrefs and
    notifies a Feishu webhook about the new ones.

    Python values are modelled as follows.
    - [str] is a list of Unicode code points ([N]); [bytes] is a list of
      octets ([Z]).
    - A parsed document is a tree of [node]s, as BeautifulSoup exposes it.
    - A Python [set] of strings is a [gset str]; a JSON object is a [gmap].
    - A call that can raise returns a [result]; [main] runs in a small
      state-and-exception monad over the persisted file and an event trace. *)

From Stdlib Require Import ZArith NArith List Ascii String Lia Bool.
From stdpp Require Import base decidable option list numbers countable gmap sets.

Import ListNotations.
Local Open Scope N_scope.

(* ------------------------------------------------------------------------- *)
(** ** Strings *)

(** A Python [str]: a sequence of code points. *)
Definition str : Type := list N.

(** A Python [bytes] value: a sequence of octets. *)
Definition bytes : Type := list Z.

(** Decoding of the UTF-8 literals of this file into code points: a
    continuation octet adds six bits to the code point being read. *)
Definition utf8_step (st : nat * N * list N) (b : N) : nat * N * list N :=
  let '(pending, acc, out) := st in
  match pending with
  | O =>
      if b <? 0x80 then (O, 0, b :: out)
      else if b <? 0xE0 then (1%nat, b - 0xC0, out)
      else if b <? 0xF0 then (2%nat, b - 0xE0, out)
      else (3%nat, b - 0xF0, out)
  | S O => (O, 0, (acc * 64 + (b - 0x80)) :: out)
  | S k => (k, acc * 64 + (b - 0x80), out)
  end.

Definition U (s : string) : str :=
  let '(_, _, out) :=
    fold_left utf8_step (map N_of_ascii (list_ascii_of_string s)) (O, 0, []) in
  rev out.

(** [str.isspace] for one character, which is also what [\s] matches in a
    [str] pattern: the code points CPython's [_PyUnicode_IsWhitespace]
    accepts. *)
Definition is_space (c : N) : bool :=
  ((0x09 <=? c) && (c <=? 0x0D)) || ((0x1C <=? c) && (c <=? 0x20))
  || (c =? 0x85) || (c =? 0xA0) || (c =? 0x1680)
  || ((0x2000 <=? c) && (c <=? 0x200A))
  || (c =? 0x2028) || (c =? 0x2029) || (c =? 0x202F) || (c =? 0x205F)
  || (c =? 0x3000).

Definition SPACE : N := 0x20.
Definition TAB : N := 0x09.
Definition NEWLINE : N := 0x0A.

(** A string of whitespace only. *)
Definition all_space (s : str) : bool := forallb is_space s.

(** [s.lstrip()]. *)
Fixpoint lstrip (s : str) : str :=
  match s with
  | [] => []
  | c :: t => if is_space c then lstrip t else s
  end.

(** [s.rstrip()]. *)
Definition rstrip (s : str) : str := rev (lstrip (rev s)).

(** [s.strip()]. *)
Definition strip (s : str) : str := rstrip (lstrip s).

(** [re.sub(r"\s+", " ", s)]: a left-to-right scan; [in_run] tells that the
    match of [\s+] that is being consumed has already produced its space. *)
Fixpoint sub_ws (in_run : bool) (s : str) : str :=
  match s with
  | [] => []
  | c :: t =>
      if is_space c
      then if in_run then sub_ws true t else SPACE :: sub_ws true t
      else c :: sub_ws false t
  end.

Definition re_sub_ws (s : str) : str := sub_ws false s.

(** [s or ""] for an argument that is a string or [None]. *)
Definition or_empty (s : option str) : str :=
  match s with
  | Some (c :: t) => c :: t
  | _ => []
  end.

(** [norm_text] (monitor.py, lines 24-25). *)
Definition norm_text (s : option str) : str := re_sub_ws (strip (or_empty s)).

(** The normalizer in the words of the specification: every maximal run of
    whitespace becomes one space, then the ends are trimmed. *)
Definition normalize_spec (raw_text : option str) : str :=
  match raw_text with
  | None => []
  | Some s => strip (re_sub_ws s)
  end.

(** The words of a string, as [str.split()] gives them: the maximal runs of
    characters that are not whitespace. [cur] is the word being read,
    reversed. *)
Fixpoint words_from (cur : str) (s : str) : list str :=
  match s with
  | [] => match cur with [] => [] | _ => [rev cur] end
  | c :: t =>
      if is_space c
      then match cur with
           | [] => words_from [] t
           | _ => rev cur :: words_from [] t
           end
      else words_from (c :: cur) t
  end.

Definition words (s : str) : list str := words_from [] s.

(** [sep.join(parts)]. *)
Fixpoint join (sep : str) (parts : list str) : str :=
  match parts with
  | [] => []
  | [p] => p
  | p :: rest => p ++ sep ++ join sep rest
  end.

(** All the words of a given length over an alphabet. *)
Fixpoint all_words {X} (alphabet : list X) (k : nat) : list (list X) :=
  match k with
  | O => [[]]
  | S k => flat_map (fun c => map (cons c) (all_words alphabet k)) alphabet
  end.

(** [needle in hay] for strings. *)
Fixpoint starts_with (needle hay : str) : bool :=
  match needle, hay with
  | [], _ => true
  | _ :: _, [] => false
  | a :: n', b :: h' => (a =? b) && starts_with n' h'
  end.

Fixpoint contains (needle hay : str) : bool :=
  starts_with needle hay ||
  match hay with
  | [] => false
  | _ :: h' => contains needle h'
  end.

(** Truth value of a string-or-[None]: [None] and the empty string are
    false. *)
Definition truthy (s : option str) : bool :=
  match s with
  | Some (_ :: _) => true
  | _ => false
  end.

(* ------------------------------------------------------------------------- *)
(** ** Exceptions *)

(** The exceptions the program can meet; all of them are subclasses of
    [Exception]. *)
Inductive exn : Type :=
| ValueError            (* urllib.parse: malformed reference or base *)
| UnicodeEncodeError    (* str.encode on a lone surrogate *)
| RequestException.     (* requests: transport failure or error status *)

Inductive result (A : Type) : Type :=
| Ok (a : A)
| Raise (e : exn).
Arguments Ok {A} a.
Arguments Raise {A} e.

(** What the program takes from the Python runtime and its libraries without
    defining it. [urljoin] is [urllib.parse.urljoin]; it raises [ValueError]
    on a reference it cannot split (an authority with an unmatched square
    bracket, for instance). [is_decimal] is the class [\d] of a [str]
    pattern (Unicode category Nd). [list_of_set] is [list(s)] for a set [s]:
    its elements, once each, in an order the program does not control. *)
Class PyRuntime : Type := {
  urljoin : str -> str -> result str;
  is_decimal : N -> bool;
  list_of_set : gset str -> list str;
  list_of_set_perm : forall s : gset str, list_of_set s ≡ₚ elements s
}.

(* ------------------------------------------------------------------------- *)
(** ** The parsed document *)

(** A BeautifulSoup tree: strings, comments (the strings [get_text] skips),
    and tags with their attribute dictionary and contents. The
    [BeautifulSoup] object itself is the root tag. *)
#[warnings="-register-all"]
Inductive node : Type :=
| Text (s : str)
| Comment (s : str)
| Tag (name : str) (attrs : list (str * str)) (contents : list node).

(** An element together with its ancestors, nearest first: what a
    BeautifulSoup object knows through [.parent]. *)
Definition located : Type := node * list node.

Definition name_of (n : node) : option str :=
  match n with Tag nm _ _ => Some nm | _ => None end.

(** [tag.get(key)]. *)
Fixpoint lookup_attr (key : str) (attrs : list (str * str)) : option str :=
  match attrs with
  | [] => None
  | (k, v) :: rest => if decide (k = key) then Some v else lookup_attr key rest
  end.

Definition get_attr (key : str) (e : located) : option str :=
  match fst e with
  | Tag _ attrs _ => lookup_attr key attrs
  | _ => None
  end.

(** The strings [get_text] collects, in document order. *)
Fixpoint strings (n : node) : list str :=
  match n with
  | Text s => [s]
  | Comment _ => []
  | Tag _ _ cs => flat_map strings cs
  end.

(** [tag.get_text(sep)]. *)
Definition get_text (sep : str) (e : located) : str :=
  join sep (strings (fst e)).

(** The proper descendants of an element in document order, each with its
    own ancestors. *)
Fixpoint descend (anc : list node) (n : node) : list located :=
  match n with
  | Tag _ _ cs =>
      flat_map (fun c => (c, n :: anc) :: descend (n :: anc) c) cs
  | _ => []
  end.

Definition descendants (e : located) : list located :=
  descend (snd e) (fst e).

Definition has_name (names : list str) (e : located) : bool :=
  match name_of (fst e) with
  | Some nm => bool_decide (nm ∈ names)
  | None => false
  end.

(** [tag.find_all(names)] and [tag.find_all(names, limit=k)]. *)
Definition find_all (names : list str) (e : located) : list located :=
  filter (fun d => has_name names d = true) (descendants e).

Definition find_all_limit (names : list str) (limit : nat) (e : located)
  : list located :=
  take limit (find_all names e).

(** [tag.find(name)]: the first match, or [None]. *)
Definition find (name : str) (e : located) : option located :=
  head (find_all [name] e).

(** [tag.parent]. *)
Definition parent (e : located) : option located :=
  match snd e with
  | [] => None
  | p :: anc => Some (p, anc)
  end.

(** [list(tag.parents)]: the ancestors, nearest first. *)
Fixpoint parents_from (anc : list node) : list located :=
  match anc with
  | [] => []
  | p :: rest => (p, rest) :: parents_from rest
  end.

Definition parents (e : located) : list located := parents_from (snd e).

(* ------------------------------------------------------------------------- *)
(** ** Extraction *)

Definition A_TAG : str := Eval vm_compute in U "a".
Definition H3_TAG : str := Eval vm_compute in U "h3".
Definition H4_TAG : str := Eval vm_compute in U "h4".
Definition P_TAG : str := Eval vm_compute in U "p".
Definition SPAN_TAG : str := Eval vm_compute in U "span".
Definition HREF : str := Eval vm_compute in U "href".

Definition MARK_DOWNLOAD : str := Eval vm_compute in U "下载".
Definition MARK_REPORT : str := Eval vm_compute in U "报告".
Definition MARK_QUARTER : str := Eval vm_compute in U "季度".
Definition MARK_HALF_YEAR : str := Eval vm_compute in U "半年度".
Definition MARK_YEAR : str := Eval vm_compute in U "年度".
Definition UNRECOGNIZED_TITLE : str := Eval vm_compute in U "未识别标题".
Definition HYPHEN : N := 0x2D.

(** A report entry: the dictionary with keys [title], [date] and [href]. *)
Record item : Type := mk_item {
  title : str;
  date : str;
  href : str
}.

#[global] Instance item_eq_dec : EqDecision item.
Proof. solve_decision. Defined.

Section Extraction.
Context `{PyRuntime}.

(** A match of [\d{4}-\d{2}-\d{2}] at the start of [s]. *)
Definition date_at (s : str) : option str :=
  match s with
  | y1 :: y2 :: y3 :: y4 :: h1 :: m1 :: m2 :: h2 :: d1 :: d2 :: _ =>
      if is_decimal y1 && is_decimal y2 && is_decimal y3 && is_decimal y4
         && (h1 =? HYPHEN) && is_decimal m1 && is_decimal m2
         && (h2 =? HYPHEN) && is_decimal d1 && is_decimal d2
      then Some [y1; y2; y3; y4; h1; m1; m2; h2; d1; d2]
      else None
  | _ => None
  end.

(** [re.search(r"(\d{4}-\d{2}-\d{2})", s)], as group 1 of the leftmost
    match. *)
Fixpoint search_date (s : str) : option str :=
  match date_at s with
  | Some d => Some d
  | None =>
      match s with
      | [] => None
      | _ :: t => search_date t
      end
  end.

(** [near_text] (monitor.py, lines 40-46). *)
Definition near_text (e : located) : str :=
  let ps := [Some e; parent e] ++ map Some (take 2 (parents e)) in
  let texts :=
    flat_map (fun p => match p with
                       | None => []
                       | Some p => [norm_text (Some (get_text [SPACE] p))]
                       end) ps in
  join [SPACE] texts.

Definition title_marker (t : str) : bool :=
  contains MARK_REPORT t || contains MARK_QUARTER t
  || contains MARK_HALF_YEAR t || contains MARK_YEAR t.

(** The loop over [cand] (lines 62-71); it stops as soon as both the
    title and the date are known. *)
Fixpoint scan_cand (cand : list located) (title date_str : option str)
  : option str * option str :=
  match cand with
  | [] => (title, date_str)
  | n :: rest =>
      let t := norm_text (Some (get_text [] n)) in
      let title :=
        if negb (truthy title) && title_marker t then Some t else title in
      let date_str :=
        if negb (truthy date_str)
        then match search_date t with
             | Some d => Some d
             | None => date_str
             end
        else date_str in
      if truthy title && truthy date_str then (title, date_str)
      else scan_cand rest title date_str
  end.

(** The loop over the anchor, its parent and its grandparent
    (lines 58-73). *)
Fixpoint scan_ups (ups : list (option located)) (title date_str : option str)
  : option str * option str :=
  match ups with
  | [] => (title, date_str)
  | None :: rest => scan_ups rest title date_str
  | Some up :: rest =>
      let cand :=
        find_all_limit [H3_TAG; H4_TAG; A_TAG; P_TAG; SPAN_TAG] 8 up in
      let '(title, date_str) := scan_cand cand title date_str in
      if truthy title && truthy date_str then (title, date_str)
      else scan_ups rest title date_str
  end.

(** The title fallback (lines 79-84): the first [h3] or [h4] of the
    document whose text contains the report marker. *)
Fixpoint first_report_heading (hs : list located) : option str :=
  match hs with
  | [] => None
  | h :: rest =>
      let t := norm_text (Some (get_text [] h)) in
      if contains MARK_REPORT t then Some t else first_report_heading rest
  end.

(** [s or default] for a string-or-[None]. *)
Definition or_default (s : option str) (default : str) : str :=
  match s with
  | Some (c :: t) => c :: t
  | _ => default
  end.

(** The title and the date found for an anchor (lines 57-84), before the
    defaults of line 88. *)
Definition describe (soup a : located) : option str * option str :=
  let gp := match parent a with
            | Some p => parent p
            | None => None
            end in
  let '(title, date_str) := scan_ups [Some a; parent a; gp] None None in
  let date_str :=
    if negb (truthy date_str)
    then match search_date (near_text a) with
         | Some d => Some d
         | None => date_str
         end
    else date_str in
  let title :=
    if negb (truthy title)
    then match first_report_heading (find_all [H3_TAG; H4_TAG] soup) with
         | Some t => Some t
         | None => title
         end
    else title in
  (title, date_str).

(** The dictionary appended on line 88. *)
Definition entry (soup a : located) (href : str) : item :=
  let '(title, date_str) := describe soup a in
  mk_item (or_default title UNRECOGNIZED_TITLE) (or_default date_str []) href.

(** The loop over the download anchors (lines 52-88), with the list of
    items and the set of hrefs accepted so far. *)
Fixpoint anchor_loop (soup : located) (base_url : str)
    (anchors : list located) (items : list item) (seen : gset str)
  : result (list item * gset str) :=
  match anchors with
  | [] => Ok (items, seen)
  | a :: rest =>
      let href := or_empty (get_attr HREF a) in
      match href with
      | [] => anchor_loop soup base_url rest items seen
      | _ :: _ =>
          match urljoin base_url href with
          | Raise e => Raise e
          | Ok href =>
              if decide (href ∈ seen)
              then anchor_loop soup base_url rest items seen
              else anchor_loop soup base_url rest
                     (items ++ [entry soup a href]) ({[ href ]} ∪ seen)
          end
      end
  end.

(** The document-wide fallback (lines 90-96). *)
Fixpoint fallback_loop (base_url : str) (hs : list located)
    (items : list item) : result (list item) :=
  match hs with
  | [] => Ok items
  | h :: rest =>
      let t := norm_text (Some (get_text [] h)) in
      if contains MARK_REPORT t then
        let a := if decide (name_of (fst h) = Some A_TAG) then Some h
                 else find A_TAG h in
        let target := match a with
                      | Some a => if truthy (get_attr HREF a)
                                  then get_attr HREF a else None
                      | None => None
                      end in
        match (match target with
               | Some ref => urljoin base_url ref
               | None => Ok base_url
               end) with
        | Raise e => Raise e
        | Ok href =>
            let d := match search_date t with
                     | Some d => d
                     | None => []
                     end in
            fallback_loop base_url rest (items ++ [mk_item t d href])
        end
      else fallback_loop base_url rest items
  end.

(** [items[:n]] for a Python integer [n]: a negative bound counts from
    the end. *)
Definition slice_to {A} (l : list A) (n : Z) : list A :=
  if (0 <=? n)%Z then take (Z.to_nat n) l
  else take (length l - Z.to_nat (- n)) l.

(** The anchors whose text carries the download marker (line 51). *)
Definition download_anchors (soup : located) : list located :=
  filter (fun a => contains MARK_DOWNLOAD
                     (norm_text (Some (get_text [] a))) = true)
         (find_all [A_TAG] soup).

(** The items of the first pass (lines 50-88). *)
Definition primary_pass (soup : located) (base_url : str)
  : result (list item) :=
  match anchor_loop soup base_url (download_anchors soup) [] ∅ with
  | Raise e => Raise e
  | Ok (items, _) => Ok items
  end.

(** [extract_items] (monitor.py, lines 48-97) from the parsed document
    on: [soup] is [BeautifulSoup(html, "lxml")]. *)
Definition extract_items (soup : node) (base_url : str) (top_n : Z)
  : result (list item) :=
  let root : located := (soup, []) in
  match primary_pass root base_url with
  | Raise e => Raise e
  | Ok [] =>
      match fallback_loop base_url
              (find_all [H3_TAG; H4_TAG; A_TAG] root) [] with
      | Raise e => Raise e
      | Ok items => Ok (slice_to items top_n)
      end
  | Ok items => Ok (slice_to items top_n)
  end.

(** The hrefs of a list of items, in order. *)
Definition hrefs (items : list item) : list str := map href items.

(** An anchor that reaches line 56 and comes out of it with [u]: it has a
    non-empty [href], which [urljoin] resolves to [u]. *)
Definition resolves_to (base_url : str) (a : located) (u : str) : Prop :=
  or_empty (get_attr HREF a) <> []
  /\ urljoin base_url (or_empty (get_attr HREF a)) = Ok u.

(** Every anchor of the document carries a reference [urljoin] accepts. *)
Definition references_resolve (soup : located) (base_url : str) : Prop :=
  forall a ref,
    a ∈ find_all [A_TAG] soup -> get_attr HREF a = Some ref -> ref <> [] ->
    exists u, urljoin base_url ref = Ok u.

End Extraction.

(* ------------------------------------------------------------------------- *)
(** ** Encoding and hashing: what [feishu_sign] calls *)

Module Codec.
Local Open Scope Z_scope.

(** [s.encode("utf-8")]; a surrogate code point cannot be encoded. *)
Definition encode_char (c : Z) : result bytes :=
  if c <? 0x80 then Ok [c]
  else if c <? 0x800 then
    Ok [Z.lor 0xC0 (Z.shiftr c 6); Z.lor 0x80 (Z.land c 0x3F)]
  else if c <? 0x10000 then
    if (0xD800 <=? c) && (c <=? 0xDFFF) then Raise UnicodeEncodeError
    else Ok [Z.lor 0xE0 (Z.shiftr c 12);
             Z.lor 0x80 (Z.land (Z.shiftr c 6) 0x3F);
             Z.lor 0x80 (Z.land c 0x3F)]
  else if c <? 0x110000 then
    Ok [Z.lor 0xF0 (Z.shiftr c 18);
        Z.lor 0x80 (Z.land (Z.shiftr c 12) 0x3F);
        Z.lor 0x80 (Z.land (Z.shiftr c 6) 0x3F);
        Z.lor 0x80 (Z.land c 0x3F)]
  else Raise UnicodeEncodeError.

Fixpoint utf8_encode (s : str) : result bytes :=
  match s with
  | [] => Ok []
  | c :: t =>
      match encode_char (Z.of_N c), utf8_encode t with
      | Ok b, Ok bs => Ok (b ++ bs)
      | Raise e, _ => Raise e
      | _, Raise e => Raise e
      end
  end.

(** The base64 alphabet (RFC 4648): the character of a six-bit value, and
    back. *)
Definition b64_char (v : Z) : Z :=
  if v <? 26 then 65 + v
  else if v <? 52 then 97 + (v - 26)
  else if v <? 62 then 48 + (v - 52)
  else if v =? 62 then 43
  else 47.

Definition b64_value (c : Z) : option Z :=
  if (65 <=? c) && (c <=? 90) then Some (c - 65)
  else if (97 <=? c) && (c <=? 122) then Some (c - 97 + 26)
  else if (48 <=? c) && (c <=? 57) then Some (c - 48 + 52)
  else if c =? 43 then Some 62
  else if c =? 47 then Some 63
  else None.

Definition B64_PAD : Z := 61.

(** The four six-bit digits of a 24-bit group. *)
Definition sextets (n : Z) : list Z :=
  [n / 262144; (n / 4096) mod 64; (n / 64) mod 64; n mod 64].

(** [base64.b64encode]: three octets make a 24-bit group of four
    characters; a last group of one or two octets is filled with zero bits
    and its unused characters are padding. *)
Fixpoint b64encode (bs : bytes) : bytes :=
  match bs with
  | [] => []
  | [a] =>
      take 2 (map b64_char (sextets (a * 65536))) ++ [B64_PAD; B64_PAD]
  | [a; b] =>
      take 3 (map b64_char (sextets (a * 65536 + b * 256))) ++ [B64_PAD]
  | a :: b :: c :: rest =>
      map b64_char (sextets (a * 65536 + b * 256 + c)) ++ b64encode rest
  end.

(** The value of a group of six-bit digits, and its octets. *)
Definition group_value (s1 s2 s3 s4 : Z) : Z :=
  s1 * 262144 + s2 * 4096 + s3 * 64 + s4.

Definition octets (n : Z) : list Z :=
  [n / 65536; (n / 256) mod 256; n mod 256].

(** [base64.b64decode] on text made of whole groups, with padding only in
    the last one; [None] for anything else. *)
Fixpoint b64decode (cs : bytes) : option bytes :=
  match cs with
  | [] => Some []
  | c1 :: c2 :: c3 :: c4 :: rest =>
      match b64_value c1, b64_value c2 with
      | Some s1, Some s2 =>
          if c4 =? B64_PAD then
            match rest with
            | [] =>
                if c3 =? B64_PAD
                then Some (take 1 (octets (group_value s1 s2 0 0)))
                else match b64_value c3 with
                     | Some s3 => Some (take 2 (octets (group_value s1 s2 s3 0)))
                     | None => None
                     end
            | _ :: _ => None
            end
          else
            match b64_value c3, b64_value c4, b64decode rest with
            | Some s3, Some s4, Some bs =>
                Some (octets (group_value s1 s2 s3 s4) ++ bs)
            | _, _, _ => None
            end
      | _, _ => None
      end
  | _ => None
  end.

(** [bs.decode("utf-8")] on the ASCII octets base64 produces: each octet
    is its own code point. *)
Definition decode_ascii (bs : bytes) : str := map Z.to_N bs.

(** An octet. *)
Definition is_byte (b : Z) : Prop := 0 <= b < 256.

(** The characters base64 text is made of. *)
Definition b64_text_char (c : Z) : Prop :=
  c = B64_PAD \/ exists v, 0 <= v < 64 /\ c = b64_char v.

End Codec.

(** SHA-256 (FIPS 180-4), which [hashlib.sha256] computes. *)
Module Sha256.
Local Open Scope Z_scope.

Definition w32 (x : Z) : Z := Z.land x 0xFFFFFFFF.
Definition add32 (x y : Z) : Z := w32 (x + y).
Definition rotr (n x : Z) : Z :=
  Z.lor (Z.shiftr x n) (w32 (Z.shiftl x (32 - n))).
Definition shr (n x : Z) : Z := Z.shiftr x n.
Definition not32 (x : Z) : Z := Z.lxor x 0xFFFFFFFF.

Definition Ch (x y z : Z) : Z := Z.lxor (Z.land x y) (Z.land (not32 x) z).
Definition Maj (x y z : Z) : Z :=
  Z.lxor (Z.lxor (Z.land x y) (Z.land x z)) (Z.land y z).
Definition Sigma0 (x : Z) : Z :=
  Z.lxor (Z.lxor (rotr 2 x) (rotr 13 x)) (rotr 22 x).
Definition Sigma1 (x : Z) : Z :=
  Z.lxor (Z.lxor (rotr 6 x) (rotr 11 x)) (rotr 25 x).
Definition sigma0 (x : Z) : Z :=
  Z.lxor (Z.lxor (rotr 7 x) (rotr 18 x)) (shr 3 x).
Definition sigma1 (x : Z) : Z :=
  Z.lxor (Z.lxor (rotr 17 x) (rotr 19 x)) (shr 10 x).

(** The constants of FIPS 180-4 are taken from the first primes: the first
    thirty-two bits of the fractional part of a cube root (round constants)
    or of a square root (initial hash value). *)
Definition is_prime (n : nat) : bool :=
  forallb (fun d => negb (n mod d =? 0)%nat) (seq 2 (n - 2)).

Definition primes_below (bound : nat) : list Z :=
  map Z.of_nat (List.filter is_prime (seq 2 (bound - 2))).

(** The integer part of the [k]-th root of [x], for [x] below [2 ^ (48 k)]:
    the bits of the root are decided from the highest down. *)
Definition root_floor (k x : Z) : Z :=
  fold_left (fun r i => let c := r + 2 ^ Z.of_nat i in
                        if c ^ k <=? x then c else r)
            (rev (seq 0 48)) 0.

Definition frac_root_bits (k p : Z) : Z :=
  w32 (root_floor k (p * 2 ^ (32 * k))).

Definition K : list Z :=
  Eval vm_compute in map (frac_root_bits 3) (primes_below 312).

(** The eight working variables, and the hash value between blocks. *)
Record regs : Type := Regs {
  ra : Z; rb : Z; rc : Z; rd : Z; re : Z; rf : Z; rg : Z; rh : Z
}.

Definition H_init : regs :=
  Regs 0x6a09e667 0xbb67ae85 0x3c6ef372 0xa54ff53a
       0x510e527f 0x9b05688c 0x1f83d9ab 0x5be0cd19.

(** One round. [ws] holds the sixteen schedule words W(t) .. W(t+15); the
    round uses W(t) and appends W(t+16). *)
Definition round (st : regs * list Z) (k : Z) : regs * list Z :=
  let '(r, ws) := st in
  let w := nth 0 ws 0 in
  let t1 := add32 (add32 (add32 (add32 (rh r) (Sigma1 (re r)))
                                (Ch (re r) (rf r) (rg r))) k) w in
  let t2 := add32 (Sigma0 (ra r)) (Maj (ra r) (rb r) (rc r)) in
  let w16 := add32 (add32 (add32 (sigma1 (nth 14 ws 0)) (nth 9 ws 0))
                          (sigma0 (nth 1 ws 0))) w in
  (Regs (add32 t1 t2) (ra r) (rb r) (rc r) (add32 (rd r) t1)
        (re r) (rf r) (rg r),
   tl ws ++ [w16]).

(** Big-endian words of a block. *)
Fixpoint words_of (bs : bytes) : list Z :=
  match bs with
  | b0 :: b1 :: b2 :: b3 :: rest =>
      (Z.lor (Z.lor (Z.lor (Z.shiftl b0 24) (Z.shiftl b1 16)) (Z.shiftl b2 8))
             b3) :: words_of rest
  | _ => []
  end.

Definition compress (h : regs) (block : bytes) : regs :=
  let '(r, _) := fold_left round K (h, words_of block) in
  Regs (add32 (ra h) (ra r)) (add32 (rb h) (rb r)) (add32 (rc h) (rc r))
       (add32 (rd h) (rd r)) (add32 (re h) (re r)) (add32 (rf h) (rf r))
       (add32 (rg h) (rg r)) (add32 (rh h) (rh r)).

Definition be_bytes (n : nat) (x : Z) : bytes :=
  map (fun i => Z.land (Z.shiftr x (8 * Z.of_nat i)) 0xFF) (rev (seq 0 n)).

(** The message, a one bit, zeros up to 56 modulo 64, and the bit length
    on eight octets. *)
Definition pad (msg : bytes) : bytes :=
  let len := Z.of_nat (length msg) in
  msg ++ [0x80] ++ repeat 0 (Z.to_nat ((55 - len) mod 64))
      ++ be_bytes 8 (8 * len).

Fixpoint blocks (fuel : nat) (bs : bytes) : list bytes :=
  match fuel, bs with
  | S fuel, _ :: _ => take 64 bs :: blocks fuel (drop 64 bs)
  | _, _ => []
  end.

Definition digest_of (r : regs) : bytes :=
  flat_map (be_bytes 4)
           [ra r; rb r; rc r; rd r; re r; rf r; rg r; rh r].

Definition sha256 (msg : bytes) : bytes :=
  let padded := pad msg in
  digest_of (fold_left compress (blocks (length padded) padded) H_init).

(** HMAC (RFC 2104) with SHA-256: [hmac.new(key, msg, sha256).digest()]. *)
Definition BLOCK_SIZE : nat := 64.

Definition hmac_sha256 (key msg : bytes) : bytes :=
  let key := if (BLOCK_SIZE <? length key)%nat then sha256 key else key in
  let key := key ++ repeat 0 (BLOCK_SIZE - length key) in
  let inner := sha256 (map (Z.lxor 0x36) key ++ msg) in
  sha256 (map (Z.lxor 0x5C) key ++ inner).

End Sha256.

(** [feishu_sign] (monitor.py, lines 99-102). *)
Definition feishu_sign (ts secret : str) : result str :=
  match Codec.utf8_encode (ts ++ [NEWLINE] ++ secret) with
  | Raise e => Raise e
  | Ok string_to_sign =>
      match Codec.utf8_encode secret with
      | Raise e => Raise e
      | Ok key =>
          Ok (Codec.decode_ascii
                (Codec.b64encode (Sha256.hmac_sha256 key string_to_sign)))
      end
  end.

(* ------------------------------------------------------------------------- *)
(** ** The notifier and the orchestrator *)

Definition BASE_URL : str :=
  Eval vm_compute in U "https://www.hanscnc.com/investorsreport/list.html".
Definition SOURCE_NAME : str := Eval vm_compute in U "大族数控-定期报告".
Definition SEEN_HREFS : str := Eval vm_compute in U "seen_hrefs".
Definition DIGEST_HEAD : str := Eval vm_compute in U " 发现新报告：".
Definition DIGEST_SOURCE : str := Eval vm_compute in U "来源：".
Definition MSG_TEXT : str := Eval vm_compute in U "text".

(** The content of [data/state.json]: a JSON object whose values are lists
    of strings. *)
Abbreviation state := (gmap str (list str)).

(** The JSON body of the webhook call. *)
Record payload : Type := mk_payload {
  msg_type : str;
  text : str;
  timestamp : option str;
  sign : option str
}.

(** The status lines [main] prints. *)
Inductive status : Type :=
| Initialized
| NotifyFailed (e : exn)
| ForceSent
| NoItemsForForce
| NoNewItems
| Notified (n : nat).

(** What a run does to the outside, in order. *)
Inductive event : Type :=
| EnterNotify (items : list item)     (* notify_feishu is called *)
| Post (url : str) (body : payload)   (* requests.post *)
| Save (st : state)                   (* save_state writes the file *)
| Print (line : status).

(** What a run reads from the outside. [TOP_N] and [FORCE_NOTIFY] are the
    values lines 121-122 compute from the environment; [page] is the
    listing page fetched and parsed, or the exception [fetch_html] ends
    with; [clock] is [int(time.time())]; [respond] is the outcome of
    [raise_for_status] for a request. *)
Record environment : Type := {
  FEISHU_WEBHOOK_URL : option str;
  FEISHU_SECRET : option str;
  TOP_N : Z;
  FORCE_NOTIFY : bool;
  page : result node;
  clock : Z;
  respond : str -> payload -> result unit
}.

(** The persisted file ([None] when it does not exist) and the trace. *)
Record world : Type := mk_world {
  state_file : option state;
  trace : list event
}.

(** Computations that read and write the world and may raise. *)
Definition M (A : Type) : Type := world -> result A * world.

#[global] Instance M_ret : MRet M := fun A a w => (Ok a, w).

#[global] Instance M_bind : MBind M := fun A B k m w =>
  match m w with
  | (Ok a, w') => k a w'
  | (Raise e, w') => (Raise e, w')
  end.

Definition lift {A} (r : result A) : M A := fun w => (r, w).

(** [try: m  except Exception as e: handler(e)]. *)
Definition try_except (m : M unit) (handler : exn -> M unit) : M unit :=
  fun w => match m w with
           | (Ok tt, w') => (Ok tt, w')
           | (Raise e, w') => handler e w'
           end.

Definition emit (e : event) : M unit :=
  fun w => (Ok tt, mk_world (state_file w) (trace w ++ [e])).

(** [load_state] (lines 14-18), for a state file that is absent or holds
    a JSON object of lists of strings, which is what [save_state] writes:
    reading such a file does not raise. *)
Definition load_state : M state :=
  fun w => match state_file w with
           | Some st => (Ok st, w)
           | None => (Ok {[ SEEN_HREFS := [] ]}, w)
           end.

(** [save_state] (lines 20-22): the file is replaced. The write is taken
    to succeed. *)
Definition save_state (st : state) : M unit :=
  fun w => (Ok tt, mk_world (Some st) (trace w ++ [Save st])).

Definition print (line : status) : M unit := emit (Print line).

(** [os.getenv(name, "")]. *)
Definition getenv (v : option str) : str := default [] v.

Fixpoint uint_chars (d : Decimal.uint) : str :=
  match d with
  | Decimal.Nil => []
  | Decimal.D0 d => 48 :: uint_chars d
  | Decimal.D1 d => 49 :: uint_chars d
  | Decimal.D2 d => 50 :: uint_chars d
  | Decimal.D3 d => 51 :: uint_chars d
  | Decimal.D4 d => 52 :: uint_chars d
  | Decimal.D5 d => 53 :: uint_chars d
  | Decimal.D6 d => 54 :: uint_chars d
  | Decimal.D7 d => 55 :: uint_chars d
  | Decimal.D8 d => 56 :: uint_chars d
  | Decimal.D9 d => 57 :: uint_chars d
  end.

(** [str(n)] for an integer. *)
Definition str_of_int (n : Z) : str :=
  match Z.to_int n with
  | Decimal.Pos d => uint_chars d
  | Decimal.Neg d => HYPHEN :: uint_chars d
  end.

(** One entry of the digest (line 109). *)
Definition digest_line (it : item) : str :=
  [0x2D; SPACE] ++ title it ++ [0xFF08] ++ date it ++ [0xFF09]
  ++ [NEWLINE; SPACE; SPACE] ++ href it.

(** The text of the message (line 110). *)
Definition digest (items : list item) : str :=
  (SOURCE_NAME ++ DIGEST_HEAD ++ [NEWLINE])
  ++ join [NEWLINE] (map digest_line items)
  ++ ([NEWLINE] ++ DIGEST_SOURCE ++ BASE_URL).

(** The timestamp and signature fields of the envelope (lines 112-116):
    absent without a secret; with one, the signing may raise. *)
Definition signing (env : environment) : result (option str * option str) :=
  match strip (getenv (FEISHU_SECRET env)) with
  | [] => Ok (None, None)
  | secret =>
      match feishu_sign (str_of_int (clock env)) secret with
      | Ok s => Ok (Some (str_of_int (clock env)), Some s)
      | Raise e => Raise e
      end
  end.

(** [notify_feishu] (lines 104-118). *)
Definition notify_feishu (env : environment) (items : list item) : M unit :=
  emit (EnterNotify items) ;;
  let webhook := strip (getenv (FEISHU_WEBHOOK_URL env)) in
  match webhook with
  | [] => mret tt
  | _ :: _ =>
      let secret := strip (getenv (FEISHU_SECRET env)) in
      let content := digest items in
      let ts := str_of_int (clock env) in
      body ← match secret with
              | [] => mret (mk_payload MSG_TEXT content None None)
              | _ :: _ =>
                  s ← lift (feishu_sign ts secret);
                  mret (mk_payload MSG_TEXT content (Some ts) (Some s))
              end;
      emit (Post webhook body) ;;
      lift (respond env webhook body)
  end.

(** The seen-set of a state (line 126). *)
Definition seen_of (st : state) : gset str :=
  list_to_set (default [] (st !! SEEN_HREFS)).

(** The state a run starts from: what [load_state] returns. *)
Definition loaded (file : option state) : state :=
  match file with
  | Some st => st
  | None => {[ SEEN_HREFS := [] ]}
  end.

(** The items whose href is not in the seen-set (line 127). *)
Definition new_items_of (seen : gset str) (items : list item) : list item :=
  filter (fun it => href it ∉ seen) items.

(** The arguments of the calls of [notify_feishu] in a trace, in order. *)
Fixpoint notifications (tr : list event) : list (list item) :=
  match tr with
  | [] => []
  | EnterNotify items :: rest => items :: notifications rest
  | _ :: rest => notifications rest
  end.

(** The states written in a trace, in order. *)
Fixpoint saves (tr : list event) : list state :=
  match tr with
  | [] => []
  | Save st :: rest => st :: saves rest
  | _ :: rest => saves rest
  end.

(** The requests sent in a trace, in order. *)
Fixpoint posts (tr : list event) : list (str * payload) :=
  match tr with
  | [] => []
  | Post url body :: rest => (url, body) :: posts rest
  | _ :: rest => posts rest
  end.

Section Orchestrator.
Context `{PyRuntime}.

(** [main] (lines 120-158). *)
Definition main (env : environment) : M unit :=
  let top_n := TOP_N env in
  let force_notify := FORCE_NOTIFY env in
  st ← load_state;
  soup ← lift (page env);
  items ← lift (extract_items soup BASE_URL top_n);
  let seen : gset str := list_to_set (default [] (st !! SEEN_HREFS)) in
  let new_items := filter (fun it => href it ∉ seen) items in
  if bool_decide (seen = ∅) && bool_decide (items <> []) && negb force_notify
  then
    save_state (<[ SEEN_HREFS := map href items ]> st) ;;
    print Initialized
  else if force_notify then
    let targets := match items with [] => [] | _ :: _ => take 1 items end in
    match targets with
    | _ :: _ =>
        try_except (notify_feishu env targets)
                   (fun e => print (NotifyFailed e)) ;;
        print ForceSent
    | [] => print NoItemsForForce
    end
  else
    match new_items with
    | [] => print NoNewItems
    | _ :: _ =>
        try_except (notify_feishu env new_items)
                   (fun e => print (NotifyFailed e)) ;;
        save_state
          (<[ SEEN_HREFS :=
                list_of_set (seen ∪ list_to_set (map href new_items)) ]> st) ;;
        print (Notified (length new_items))
    end.

(** A run of [main] over a given state file, from an empty trace. *)
Definition run (env : environment) (file : option state) : result unit * world :=
  main env (mk_world file []).

End Orchestrator.

(* ------------------------------------------------------------------------- *)
(** ** A runtime for concrete runs

    The concrete documents below use hrefs that are already absolute
    [https] URLs without query or fragment, which [urljoin] returns
    unchanged, and ASCII digits; the reference ["//["] is one [urljoin]
    rejects: its authority opens a bracket that is never closed. *)

Definition BAD_REFERENCE : str := Eval vm_compute in U "//[".

#[global] Instance sample_runtime : PyRuntime := {|
  urljoin base url :=
    if decide (url = BAD_REFERENCE) then Raise ValueError else Ok url;
  is_decimal c := (48 <=? c) && (c <=? 57);
  list_of_set s := elements s;
  list_of_set_perm s := reflexivity (elements s)
|}.

Local Open Scope string_scope.

Definition el (name : string) (attrs : list (string * string))
    (contents : list node) : node :=
  Tag (U name) (map (fun kv => (U (fst kv), U (snd kv))) attrs) contents.

Definition txt (s : string) : node := Text (U s).

(** The tree lxml builds around the elements of a body. *)
Definition document (body : list node) : node :=
  Tag (U "[document]") [] [el "html" [] [el "body" [] body]].

(** Two download anchors with the same target. *)
Definition doc_two_downloads : node :=
  document
    [el "div" []
       [el "h3" [] [txt "2024年第三季度报告"];
        el "span" [] [txt "2024-10-30"];
        el "a" [("href", "https://www.hanscnc.com/r/2024q3.pdf")] [txt "下载"]];
     el "div" []
       [el "a" [("href", "https://www.hanscnc.com/r/2024q3.pdf")]
           [txt "PDF 下载"]]].

Definition report_2024q3 : item :=
  Eval vm_compute in
    mk_item (U "2024年第三季度报告") (U "2024-10-30")
            (U "https://www.hanscnc.com/r/2024q3.pdf").

(** No download anchor; a heading whose text is that of its own link. *)
Definition doc_heading_link : node :=
  document
    [el "h3" []
       [el "a" [("href", "https://www.hanscnc.com/x.pdf")]
           [txt "2023年度报告"]]].

(** A download anchor whose reference [urljoin] rejects. *)
Definition doc_bad_reference : node :=
  document [el "a" [("href", "//[")] [txt "下载"]].

(** A steady-state configuration: a webhook and a secret are set, the page
    shows one report, and the webhook answers with an error status. *)
Definition sample_env (force : bool) : environment := {|
  FEISHU_WEBHOOK_URL := Some (U "https://open.feishu.cn/hook/1 ");
  FEISHU_SECRET := Some (U "s3cret");
  TOP_N := 20;
  FORCE_NOTIFY := force;
  page := Ok doc_two_downloads;
  clock := 1700000000;
  respond := fun _ _ => Raise RequestException
|}.

(** A state file that already holds one href. *)
Definition sample_state : state :=
  {[ SEEN_HREFS := [U "https://www.hanscnc.com/r/2024q2.pdf"] ]}.

Local Close Scope string_scope.

(* ------------------------------------------------------------------------- *)
(** ** Notions used to state the properties *)

(** A word: a non-empty string without whitespace. *)
Definition is_word (w : str) : Prop :=
  w <> [] /\ Forall (fun c => is_space c = false) w.

Section ItemShapes.
Context `{PyRuntime}.

(** What the scan of lines 58-84 knows about the title and the date it
    carries: nothing yet, or a text with a title marker, or a match of the
    date pattern in some text. *)
Definition found_title (title : option str) : Prop :=
  title = None \/ exists t, title = Some t /\ title_marker t = true.

Definition found_date (date_str : option str) : Prop :=
  date_str = None \/ exists d s, date_str = Some d /\ search_date s = Some d.

(** A title that the extraction can give: the sentinel, or a text with one
    of the title markers. *)
Definition well_titled (it : item) : Prop :=
  title it = UNRECOGNIZED_TITLE \/ title_marker (title it) = true.

(** A date that the extraction can give: none, or a match of the pattern. *)
Definition well_dated (it : item) : Prop :=
  date it = []
  \/ (length (date it) = 10%nat /\ date_at (date it) = Some (date it)).

(** An href that the extraction can give: the base URL, or what [urljoin]
    made of the non-empty [href] of an anchor of the document. *)
Definition from_page (soup : located) (base_url : str) (it : item) : Prop :=
  href it = base_url
  \/ exists a, a ∈ find_all [A_TAG] soup /\ resolves_to base_url a (href it).

End ItemShapes.

Section Uncapped.
Context `{PyRuntime}.

(** The items of lines 50-96, before the cut of line 97. *)
Definition found_items (soup : node) (base_url : str) : result (list item) :=
  match primary_pass (soup, []) base_url with
  | Raise e => Raise e
  | Ok [] =>
      fallback_loop base_url
        (find_all [H3_TAG; H4_TAG; A_TAG] (soup, [])) []
  | Ok items => Ok items
  end.

End Uncapped.

(** A document with a download anchor that has no [href], a heading
    without the report marker, and nothing else to find. *)
Definition doc_nothing_to_find : node :=
  document
    [el "h3" [] [txt "公司新闻"%string];
     el "a" [] [txt "下载"%string];
     el "p" [] [txt "2024-10-30 年度报告"%string]].

(** A listing with three reports, the newest first. *)
Definition doc_three_reports : node :=
  document
    [el "div" []
       [el "h3" [] [txt "2024年第三季度报告"%string];
        el "span" [] [txt "2024-10-30"%string];
        el "a" [("href", "https://www.hanscnc.com/r/2024q3.pdf")%string]
           [txt "下载"%string]];
     el "div" []
       [el "h3" [] [txt "2024年半年度报告"%string];
        el "span" [] [txt "2024-08-28"%string];
        el "a" [("href", "https://www.hanscnc.com/r/2024h1.pdf")%string]
           [txt "下载"%string]];
     el "div" []
       [el "h3" [] [txt "2024年第一季度报告"%string];
        el "span" [] [txt "2024-04-26"%string];
        el "a" [("href", "https://www.hanscnc.com/r/2024q1.pdf")%string]
           [txt "下载"%string]]].

Definition report_2024h1 : item :=
  Eval vm_compute in
    mk_item (U "2024年半年度报告") (U "2024-08-28")
            (U "https://www.hanscnc.com/r/2024h1.pdf").

Definition report_2024q1 : item :=
  Eval vm_compute in
    mk_item (U "2024年第一季度报告") (U "2024-04-26")
            (U "https://www.hanscnc.com/r/2024q1.pdf").

Definition report_2023_annual : item :=
  Eval vm_compute in
    mk_item (U "2023年度报告") [] (U "https://www.hanscnc.com/x.pdf").

(** A Unicode scalar value: a code point that is not a surrogate. *)
Definition is_scalar (c : N) : Prop :=
  c < 0xD800 \/ (0xDFFF < c /\ c < 0x110000).

(** A state file that holds the href of the report on the sample page. *)
Definition sample_state_current : state :=
  {[ SEEN_HREFS := [U "https://www.hanscnc.com/r/2024q3.pdf"] ]}.

(** A configuration in which the notification goes through. *)
Definition sample_env_online (force : bool) : environment := {|
  FEISHU_WEBHOOK_URL := Some (U "https://open.feishu.cn/hook/1");
  FEISHU_SECRET := Some (U "s3cret");
  TOP_N := 20;
  FORCE_NOTIFY := force;
  page := Ok doc_three_reports;
  clock := 1700000000;
  respond := fun _ _ => Ok tt
|}.

(** A setting as the notifier reads it (lines 105-106 and 108, 114): the
    variable without the whitespace around it, and none when the variable
    is unset, empty or blank. *)
Definition setting (v : option str) : option str :=
  match v with
  | Some raw =>
      match strip raw with
      | [] => None
      | c :: s => Some (c :: s)
      end
  | None => None
  end.

(** The environment with another outcome of the request. *)
Definition with_respond (env : environment)
    (outcome : str -> payload -> result unit) : environment := {|
  FEISHU_WEBHOOK_URL := FEISHU_WEBHOOK_URL env;
  FEISHU_SECRET := FEISHU_SECRET env;
  TOP_N := TOP_N env;
  FORCE_NOTIFY := FORCE_NOTIFY env;
  page := page env;
  clock := clock env;
  respond := outcome
|}.

(** A webhook without a secret, which answers. *)
Definition sample_env_unsigned : environment := {|
  FEISHU_WEBHOOK_URL := Some (U " https://open.feishu.cn/hook/1");
  FEISHU_SECRET := None;
  TOP_N := 20;
  FORCE_NOTIFY := false;
  page := Ok doc_three_reports;
  clock := 1700000000;
  respond := fun _ _ => Ok tt
|}.

(** A webhook with a secret that UTF-8 cannot encode: the lone surrogate
    that [os.getenv] gives for the byte [0x80] of the variable. *)
Definition sample_env_bad_secret : environment := {|
  FEISHU_WEBHOOK_URL := Some (U "https://open.feishu.cn/hook/1");
  FEISHU_SECRET := Some [0xDC80];
  TOP_N := 20;
  FORCE_NOTIFY := false;
  page := Ok doc_three_reports;
  clock := 1700000000;
  respond := fun _ _ => Ok tt
|}.


(* ========================================================================= *)
(** * Properties *)

(* ------------------------------------------------------------------------- *)
(** ** The text normalizer *)

Section Normalizer.

Arguments is_space : simpl never.

Lemma all_space_rev s : all_space (rev s) = all_space s.
Proof.
  unfold all_space. induction s as [|c t IH]; simpl; [done|].
  rewrite forallb_app, IH. simpl. rewrite andb_true_r. apply andb_comm.
Qed.

Lemma lstrip_all_space s : all_space s = true -> lstrip s = [].
Proof.
  induction s as [|c t IH]; simpl; [done|].
  intros [Hc Ht]%andb_prop. rewrite Hc. auto.
Qed.

Lemma lstrip_snoc s c :
  lstrip (s ++ [c]) =
  if all_space s then (if is_space c then [] else [c]) else lstrip s ++ [c].
Proof.
  induction s as [|d t IH]; simpl; [done|].
  destruct (is_space d); simpl; [exact IH|done].
Qed.

(** [rstrip] read from the left: a character goes when it and everything
    after it is whitespace. *)
Lemma rstrip_cons c t :
  rstrip (c :: t) = if is_space c && all_space t then [] else c :: rstrip t.
Proof.
  unfold rstrip. simpl rev. rewrite lstrip_snoc, all_space_rev.
  destruct (all_space t) eqn:Ht.
  - rewrite (lstrip_all_space (rev t)) by (rewrite all_space_rev; done).
    destruct (is_space c); done.
  - rewrite andb_false_r, rev_app_distr. done.
Qed.

Lemma rstrip_all_space s : all_space s = true -> rstrip s = [].
Proof.
  intros Hs. unfold rstrip.
  rewrite lstrip_all_space; [done | by rewrite all_space_rev].
Qed.

Lemma all_space_sub_ws b s : all_space (sub_ws b s) = all_space s.
Proof.
  revert b. induction s as [|c t IH]; intros b; simpl; [done|].
  destruct (is_space c) eqn:Hc.
  - destruct b; simpl; rewrite ?IH; [done|]. done.
  - simpl. rewrite Hc. done.
Qed.

(** Collapsing the runs and trimming the right end commute. *)
Lemma sub_ws_rstrip b s : sub_ws b (rstrip s) = rstrip (sub_ws b s).
Proof.
  revert b. induction s as [|c t IH]; intros b; [done|].
  rewrite rstrip_cons. simpl sub_ws at 2.
  destruct (is_space c) eqn:Hc; simpl andb.
  - destruct (all_space t) eqn:Ht.
    + destruct b; simpl.
      * symmetry. apply rstrip_all_space. by rewrite all_space_sub_ws.
      * rewrite rstrip_cons, all_space_sub_ws, Ht, andb_true_r. done.
    + simpl. rewrite Hc. destruct b.
      * apply IH.
      * rewrite rstrip_cons, all_space_sub_ws, Ht, andb_false_r, IH. done.
  - simpl. rewrite Hc, rstrip_cons, Hc. simpl. by rewrite IH.
Qed.

(** The left end after collapsing: the first word starts the result. *)
Lemma lstrip_sub_ws b s :
  lstrip (sub_ws b s) = sub_ws false (lstrip s).
Proof.
  revert b. induction s as [|c t IH]; intros b; simpl; [done|].
  destruct (is_space c) eqn:Hc.
  - destruct b; simpl; [apply IH|]. apply IH.
  - simpl. rewrite Hc. done.
Qed.

Lemma norm_text_refines s : norm_text (Some s) = normalize_spec (Some s).
Proof.
  unfold norm_text, normalize_spec, re_sub_ws, strip.
  replace (or_empty (Some s)) with s by (destruct s; done).
  rewrite sub_ws_rstrip, lstrip_sub_ws. done.
Qed.

Lemma words_from_all_space s : all_space s = true -> words_from [] s = [].
Proof.
  induction s as [|c t IH]; simpl; [done|].
  intros [Hc Ht]%andb_prop. rewrite Hc. auto.
Qed.

Lemma words_from_nonempty cur s :
  cur <> [] \/ all_space s = false -> words_from cur s <> [].
Proof.
  revert cur. induction s as [|c t IH]; intros cur Hor; simpl.
  - destruct cur; [|done]. destruct Hor; done.
  - destruct (is_space c) eqn:Hc.
    + destruct cur; [|done]. apply IH. right.
      destruct Hor as [|Hs]; [done|]. simpl in Hs. by rewrite Hc in Hs.
    + apply IH. by left.
Qed.

Lemma join_cons sep p rest :
  rest <> [] -> join sep (p :: rest) = p ++ sep ++ join sep rest.
Proof. destruct rest; done. Qed.

(** A scan that has read [cur] and goes on over [s] ends with the words
    of the whole, joined by single spaces. *)
Lemma rstrip_sub_ws_words s :
  forall cur,
    (cur <> [] ->
     rev cur ++ rstrip (sub_ws false s) = join [SPACE] (words_from cur s))
    /\ rstrip (sub_ws true s) = join [SPACE] (words_from [] s).
Proof.
  induction s as [|c t IH]; intros cur.
  - split; [|done]. intros Hcur. simpl. destruct cur; [done|].
    by rewrite app_nil_r.
  - simpl. destruct (is_space c) eqn:Hc.
    + split; [|apply (IH [])].
      intros Hcur. rewrite rstrip_cons, all_space_sub_ws.
      change (is_space SPACE) with true. simpl andb.
      destruct cur as [|d cur']; [done|].
      destruct (all_space t) eqn:Ht.
      * rewrite words_from_all_space by done. simpl. by rewrite app_nil_r.
      * rewrite join_cons by (apply words_from_nonempty; by right).
        destruct (IH []) as [_ ->]. done.
    + assert (Hstep : forall pre,
                rev pre ++ rstrip (c :: sub_ws false t)
                = join [SPACE] (words_from (c :: pre) t)).
      { intros pre. rewrite rstrip_cons, Hc. simpl andb.
        destruct (IH (c :: pre)) as [Hw _]. rewrite <- Hw by done.
        simpl. by rewrite <- app_assoc. }
      split.
      * intros _. apply Hstep.
      * apply (Hstep []).
Qed.

Lemma words_lstrip s : words (lstrip s) = words s.
Proof.
  unfold words. induction s as [|c t IH]; simpl; [done|].
  destruct (is_space c) eqn:Hc; [done|]. simpl. by rewrite Hc.
Qed.

Lemma norm_text_words s : norm_text (Some s) = join [SPACE] (words s).
Proof.
  rewrite norm_text_refines. unfold normalize_spec, strip, re_sub_ws.
  rewrite lstrip_sub_ws, <- words_lstrip.
  destruct (lstrip s) as [|c t] eqn:Hl; [done|].
  assert (Hc : is_space c = false).
  { clear -Hl. induction s as [|d u IH]; simpl in Hl; [done|].
    destruct (is_space d) eqn:Hd; [auto|]. by inversion Hl; subst. }
  unfold words. simpl. rewrite Hc, rstrip_cons, Hc. simpl andb.
  destruct (rstrip_sub_ws_words t [c]) as [Hw _]. rewrite <- Hw; done.
Qed.

End Normalizer.

(** C8. [norm_text] is a function of its argument alone, defined on every
    string and on [None]: a missing argument gives the empty string, and a
    string gives its words (the maximal runs of characters that are not
    whitespace) joined by single spaces, which is also what collapsing every
    maximal run of whitespace to one space and then trimming both ends
    gives. Space, tab and newline are whitespace. *)
Theorem norm_text_collapses_and_trims :
  norm_text None = []
  /\ (forall s : str,
        norm_text (Some s) = join [SPACE] (words s)
        /\ norm_text (Some s) = strip (re_sub_ws s))
  /\ is_space SPACE = true /\ is_space TAB = true /\ is_space NEWLINE = true.
Proof.
  split; [reflexivity|]. split; [|repeat split; reflexivity].
  intros s. split; [apply norm_text_words|].
  apply (norm_text_refines s).
Qed.

(* ------------------------------------------------------------------------- *)
(** ** Extraction *)

Section ExtractionFacts.
Context `{PyRuntime}.

Lemma hrefs_snoc items it : hrefs (items ++ [it]) = hrefs items ++ [href it].
Proof. unfold hrefs. by rewrite map_app. Qed.

Lemma href_entry soup a u : href (entry soup a u) = u.
Proof. unfold entry. by destruct (describe soup a). Qed.

(** The loop keeps [seen] equal to the hrefs of [items], never repeats an
    href, and only appends. *)
Lemma anchor_loop_invariant soup base anchors :
  forall items seen items' seen',
    anchor_loop soup base anchors items seen = Ok (items', seen') ->
    (forall u, u ∈ seen <-> u ∈ hrefs items) ->
    NoDup (hrefs items) ->
    (forall u, u ∈ seen' <-> u ∈ hrefs items')
    /\ NoDup (hrefs items')
    /\ items `prefix_of` items'.
Proof.
  induction anchors as [|a rest IH]; intros items seen items' seen' Hrun Hseen Hnd.
  - simpl in Hrun. inversion Hrun; subst. done.
  - simpl in Hrun.
    destruct (or_empty (get_attr HREF a)) as [|c ref]; [by eapply IH|].
    destruct (urljoin base (c :: ref)) as [u|e]; [|done].
    destruct (decide (u ∈ seen)) as [Hin|Hnin]; [by eapply IH|].
    apply IH in Hrun as (Hs & Hn & Hp).
    + split; [done|]. split; [done|]. by eapply prefix_app_l.
    + intros v. rewrite hrefs_snoc, href_entry, elem_of_union, elem_of_singleton,
        elem_of_app, list_elem_of_singleton, Hseen. tauto.
    + rewrite hrefs_snoc, href_entry. apply NoDup_app. split; [done|].
      split; [|apply NoDup_singleton].
      intros v Hv ->%list_elem_of_singleton. apply Hnin, Hseen, Hv.
Qed.

(** The first anchor that resolves to an href not yet seen gets its entry
    into the result. *)
Lemma anchor_loop_first soup base pre :
  forall a post u items seen items' seen',
    anchor_loop soup base (pre ++ a :: post) items seen = Ok (items', seen') ->
    resolves_to base a u ->
    (forall b, b ∈ pre -> ~ resolves_to base b u) ->
    u ∉ seen ->
    entry soup a u ∈ items'.
Proof.
  induction pre as [|b pre IH]; intros a post u items seen items' seen' Hrun [Hne Hu] Hpre Hnin.
  - simpl in Hrun.
    destruct (or_empty (get_attr HREF a)) as [|c ref]; [done|].
    rewrite Hu in Hrun. destruct (decide (u ∈ seen)); [done|].
    assert (Hsub : (items ++ [entry soup a u]) `prefix_of` items').
    { clear -Hrun. revert Hrun. generalize (items ++ [entry soup a u]).
      generalize ({[u]} ∪ seen). induction post as [|p post IH]; intros s l Hrun.
      - simpl in Hrun. by inversion Hrun.
      - simpl in Hrun.
        destruct (or_empty (get_attr HREF p)) as [|c' r']; [by eapply IH|].
        destruct (urljoin base (c' :: r')) as [v|]; [|done].
        destruct (decide (v ∈ s)); [by eapply IH|].
        apply IH in Hrun. by eapply prefix_app_l. }
    destruct Hsub as [k ->]. rewrite !elem_of_app, list_elem_of_singleton. auto.
  - simpl in Hrun.
    assert (Hb : ~ resolves_to base b u) by (apply Hpre; left).
    assert (Hpre' : forall b', b' ∈ pre -> ~ resolves_to base b' u)
      by (intros b' Hb'; apply Hpre; by right).
    unfold resolves_to in Hb.
    destruct (or_empty (get_attr HREF b)) as [|c ref] eqn:Href;
      [by eapply (IH a post u)|].
    destruct (urljoin base (c :: ref)) as [v|e] eqn:Hv; [|done].
    destruct (decide (v ∈ seen)); [by eapply (IH a post u)|].
    eapply (IH a post u); [exact Hrun|done|done|].
    rewrite elem_of_union, elem_of_singleton. intros [->|]; [|done].
    apply Hb. done.
Qed.

Lemma slice_to_prefix {A} (l : list A) n : slice_to l n `prefix_of` l.
Proof. unfold slice_to. destruct (0 <=? n)%Z; apply prefix_take. Qed.

Lemma NoDup_prefix {A} (l k : list A) : l `prefix_of` k -> NoDup k -> NoDup l.
Proof. intros [m ->] Hnd. by apply NoDup_app in Hnd as [? _]. Qed.

Lemma hrefs_prefix l k : l `prefix_of` k -> hrefs l `prefix_of` hrefs k.
Proof. intros [m ->]. exists (hrefs m). unfold hrefs. apply map_app. Qed.

Lemma slice_to_length {A} (l : list A) n :
  (0 <= n)%Z -> (Z.of_nat (length (slice_to l n)) <= n)%Z.
Proof.
  intros Hn. unfold slice_to. destruct (Z.leb_spec 0 n); [|lia].
  rewrite length_take. lia.
Qed.

End ExtractionFacts.

(** Induction over a document: a tag holds what its contents hold. *)
Lemma node_nested_ind (P : node -> Prop) :
  (forall s, P (Text s)) ->
  (forall s, P (Comment s)) ->
  (forall name attrs contents,
      Forall P contents -> P (Tag name attrs contents)) ->
  forall n, P n.
Proof.
  intros HText HComment HTag.
  fix IH 1. intros [s|s|name attrs contents]; [apply HText|apply HComment|].
  apply HTag. induction contents as [|c cs IHcs]; constructor; [apply IH|apply IHcs].
Qed.

Lemma descend_unfold anc n x :
  x ∈ descend anc n <->
  exists name attrs contents c,
    n = Tag name attrs contents /\ c ∈ contents
    /\ (x = (c, n :: anc) \/ x ∈ descend (n :: anc) c).
Proof.
  destruct n as [s|s|name attrs contents]; simpl.
  - split; [by intros ?%elem_of_nil|]. by intros (?&?&?&?&?&_).
  - split; [by intros ?%elem_of_nil|]. by intros (?&?&?&?&?&_).
  - rewrite list_elem_of_In, in_flat_map. split.
    + intros (c & Hc & Hx). exists name, attrs, contents, c.
      split; [done|]. split; [by apply list_elem_of_In|].
      destruct Hx as [<-|Hx]; [by left|right; by apply list_elem_of_In].
    + intros (?&?&?&c&[= <- <- <-]&Hc&Hx). exists c.
      split; [by apply list_elem_of_In|].
      destruct Hx as [->|Hx]; [by left|right; by apply list_elem_of_In].
Qed.

(** A descendant of a descendant is a descendant. *)
Lemma descend_trans n :
  forall anc d x,
    d ∈ descend anc n -> x ∈ descend (snd d) (fst d) -> x ∈ descend anc n.
Proof.
  induction n as [s|s|name attrs contents IH] using node_nested_ind;
    intros anc d x Hd Hx.
  - simpl in Hd. inversion Hd.
  - simpl in Hd. inversion Hd.
  - apply descend_unfold in Hd as (?&?&?&c&[= <- <- <-]&Hc&Hd).
    apply descend_unfold. exists name, attrs, contents, c.
    split; [done|]. split; [done|]. right.
    destruct Hd as [->|Hd]; [exact Hx|].
    rewrite Forall_forall in IH. eapply IH; [exact Hc|exact Hd|exact Hx].
Qed.

Section Totality.
Context `{PyRuntime}.

Lemma or_empty_Some (o : option str) c t :
  or_empty o = c :: t -> o = Some (c :: t).
Proof. destruct o as [[|d u]|]; simpl; intros Heq; by try rewrite <- Heq. Qed.

Lemma anchor_loop_total soup base anchors :
  references_resolve soup base ->
  (forall a, a ∈ anchors -> a ∈ find_all [A_TAG] soup) ->
  forall items seen, exists r, anchor_loop soup base anchors items seen = Ok r.
Proof.
  intros Hres. induction anchors as [|a rest IH]; intros Hin items seen.
  - by eexists.
  - assert (Hrest : forall b, b ∈ rest -> b ∈ find_all [A_TAG] soup)
      by (intros b Hb; apply Hin; by right).
    simpl. destruct (or_empty (get_attr HREF a)) as [|c ref] eqn:Href; [by apply IH|].
    apply or_empty_Some in Href.
    destruct (Hres a (c :: ref)) as [u ->]; [apply Hin; by left|done|done|].
    destruct (decide (u ∈ seen)); by apply IH.
Qed.

Lemma find_all_elem names e x :
  x ∈ find_all names e <-> has_name names x = true /\ x ∈ descendants e.
Proof. unfold find_all. by rewrite list_elem_of_filter. Qed.

Lemma has_name_anchor x : has_name [A_TAG] x = true <-> name_of (fst x) = Some A_TAG.
Proof.
  unfold has_name. destruct (name_of (fst x)) as [nm|]; [|done].
  rewrite bool_decide_eq_true, list_elem_of_singleton. split; congruence.
Qed.

Lemma fallback_loop_total soup base hs :
  references_resolve soup base ->
  (forall h, h ∈ hs -> h ∈ descendants soup) ->
  forall items, exists r, fallback_loop base hs items = Ok r.
Proof.
  intros Hres. induction hs as [|h rest IH]; intros Hin items.
  - by eexists.
  - assert (Hrest : forall b, b ∈ rest -> b ∈ descendants soup)
      by (intros b Hb; apply Hin; by right).
    assert (Hh : h ∈ descendants soup) by (apply Hin; by left).
    simpl. destruct (contains MARK_REPORT _); [|by apply IH].
    set (a := if decide (name_of (fst h) = Some A_TAG) then Some h
              else find A_TAG h).
    assert (Ha : forall a', a = Some a' -> a' ∈ find_all [A_TAG] soup).
    { intros a' Ha'. subst a. apply find_all_elem.
      destruct (decide (name_of (fst h) = Some A_TAG)) as [Hn|Hn].
      - inversion Ha'; subst a'. split; [by apply has_name_anchor|done].
      - unfold find in Ha'. apply head_Some_elem_of in Ha'.
        apply find_all_elem in Ha' as [? Ha']. split; [done|].
        unfold descendants in *. by eapply descend_trans. }
    destruct a as [a'|]; [|by apply IH].
    destruct (get_attr HREF a') as [[|c ref]|] eqn:Href; simpl;
      [by apply IH| |by apply IH].
    destruct (Hres a' (c :: ref)) as [u ->]; [by apply Ha|done|done|].
    apply IH. done.
Qed.

End Totality.


(** The first pass keeps hrefs distinct. Whenever it accepts at least one
    download anchor, the hrefs of what [extract_items] returns are pairwise
    distinct, for every cap; the result is the accepted list cut to the
    cap; and every href that some download anchor with a non-empty [href]
    resolves to has its entry in the accepted list, built from the first
    such anchor in document order. *)
Theorem primary_pass_hrefs_distinct `{PyRuntime} (soup : node) (base_url : str)
    (primary : list item) :
  primary_pass (soup, []) base_url = Ok primary ->
  primary <> [] ->
  NoDup (hrefs primary)
  /\ (forall top_n : Z,
        extract_items soup base_url top_n = Ok (slice_to primary top_n)
        /\ NoDup (hrefs (slice_to primary top_n)))
  /\ (forall pre a post u,
        download_anchors (soup, []) = pre ++ a :: post ->
        resolves_to base_url a u ->
        (forall b, b ∈ pre -> ~ resolves_to base_url b u) ->
        entry (soup, []) a u ∈ primary).
Proof.
  intros Hrun Hne. unfold primary_pass in Hrun.
  destruct (anchor_loop (soup, []) base_url (download_anchors (soup, [])) [] ∅)
    as [[items seen]|e] eqn:Hloop; [|done].
  inversion Hrun; subst items.
  destruct (anchor_loop_invariant _ _ _ _ _ _ _ Hloop) as (Hseen & Hnd & _).
  { intros u. rewrite elem_of_empty. unfold hrefs. simpl. by rewrite elem_of_nil. }
  { constructor. }
  split; [exact Hnd|]. split.
  - intros top_n. split.
    + unfold extract_items, primary_pass. rewrite Hloop.
      destruct primary; done.
    + eapply NoDup_prefix; [|exact Hnd].
      apply hrefs_prefix, slice_to_prefix.
  - intros pre a post u Hanchors Hres Hpre.
    rewrite Hanchors in Hloop.
    eapply anchor_loop_first; [exact Hloop|done|done|]. apply not_elem_of_empty.
Qed.

Lemma primary_pass_hrefs_distinct_witness :
  NoDup (hrefs [report_2024q3])
  /\ (forall top_n : Z,
        extract_items doc_two_downloads BASE_URL top_n
        = Ok (slice_to [report_2024q3] top_n)
        /\ NoDup (hrefs (slice_to [report_2024q3] top_n)))
  /\ (forall pre a post u,
        download_anchors (doc_two_downloads, []) = pre ++ a :: post ->
        resolves_to BASE_URL a u ->
        (forall b, b ∈ pre -> ~ resolves_to BASE_URL b u) ->
        entry (doc_two_downloads, []) a u ∈ [report_2024q3]).
Proof.
  apply (primary_pass_hrefs_distinct doc_two_downloads BASE_URL [report_2024q3]).
  - vm_compute. reflexivity.
  - discriminate.
Defined.

(** C1. The document-wide fallback returns one href twice. For a heading
    that wraps its own link and carries the report marker,
    [<h3><a href=X>2023年度报告</a></h3>], the first pass accepts nothing and
    the fallback appends an item for the heading and an item for the link,
    both with what [urljoin] makes of [X]: the hrefs of the result are not
    pairwise distinct. The fallback has no test of [seen], which the first
    pass has ([primary_pass_hrefs_distinct]). *)
Theorem fallback_repeats_href `{PyRuntime} (u : str) :
  urljoin BASE_URL (U "https://www.hanscnc.com/x.pdf") = Ok u ->
  let it := mk_item (U "2023年度报告") [] u in
  primary_pass (doc_heading_link, []) BASE_URL = Ok []
  /\ extract_items doc_heading_link BASE_URL 20 = Ok [it; it]
  /\ ~ NoDup (hrefs [it; it]).
Proof.
  intros Hjoin. cbv zeta.
  assert (Hprimary : primary_pass (doc_heading_link, []) BASE_URL = Ok []).
  { unfold primary_pass.
    replace (download_anchors (doc_heading_link, [])) with (@nil located)
      by (vm_compute; reflexivity).
    reflexivity. }
  split; [exact Hprimary|]. split.
  - unfold extract_items. rewrite Hprimary.
    vm_compute in Hjoin. vm_compute. rewrite Hjoin. reflexivity.
  - intros Hnd. apply NoDup_cons in Hnd as [Hnin _]. apply Hnin. by left.
Qed.

Lemma fallback_repeats_href_witness :
  primary_pass (doc_heading_link, []) BASE_URL = Ok []
  /\ extract_items doc_heading_link BASE_URL 20
     = Ok [report_2023_annual; report_2023_annual]
  /\ ~ NoDup (hrefs [report_2023_annual; report_2023_annual]).
Proof.
  apply (fallback_repeats_href (U "https://www.hanscnc.com/x.pdf")).
  vm_compute. reflexivity.
Defined.

(** C7. For a cap [top_n >= 0], what [extract_items] returns has at most
    [top_n] items, and it is the first [top_n] items of what lines 50-96
    found, in their order (all of them when there are fewer). *)
Theorem extract_items_respects_cap `{PyRuntime} (soup : node) (base_url : str)
    (top_n : Z) (items : list item) :
  (0 <= top_n)%Z ->
  extract_items soup base_url top_n = Ok items ->
  (Z.of_nat (length items) <= top_n)%Z
  /\ exists found,
       found_items soup base_url = Ok found
       /\ items = take (Z.to_nat top_n) found
       /\ length items = Nat.min (Z.to_nat top_n) (length found).
Proof.
  intros Hn. unfold extract_items, found_items.
  assert (Hcut : forall found : list item,
             slice_to found top_n = take (Z.to_nat top_n) found).
  { intros found. unfold slice_to. by destruct (Z.leb_spec 0 top_n); [|lia]. }
  destruct (primary_pass (soup, []) base_url) as [[|it primary]|e]; [| |done].
  - destruct (fallback_loop _ _ _) as [fb|e]; [|done].
    intros [= <-]. split; [by apply slice_to_length|].
    exists fb. rewrite Hcut. split; [done|]. split; [done|]. apply length_take.
  - intros [= <-]. split; [by apply slice_to_length|].
    exists (it :: primary). rewrite Hcut.
    split; [done|]. split; [done|]. apply length_take.
Qed.

Lemma extract_items_respects_cap_witness :
  (Z.of_nat (length [report_2024q3; report_2024h1]) <= 2)%Z
  /\ exists found,
       found_items doc_three_reports BASE_URL = Ok found
       /\ [report_2024q3; report_2024h1] = take (Z.to_nat 2) found
       /\ length [report_2024q3; report_2024h1]
          = Nat.min (Z.to_nat 2) (length found).
Proof.
  apply (extract_items_respects_cap doc_three_reports BASE_URL 2
           [report_2024q3; report_2024h1]).
  - lia.
  - vm_compute. reflexivity.
Defined.

(** [extract_items] returns a (possibly empty) list whenever [urljoin]
    accepts the reference of every anchor of the document: no other step of
    it can raise. *)
Theorem extract_items_total `{PyRuntime} (soup : node) (base_url : str)
    (top_n : Z) :
  references_resolve (soup, []) base_url ->
  exists items, extract_items soup base_url top_n = Ok items.
Proof.
  intros Hres. unfold extract_items, primary_pass.
  destruct (anchor_loop_total (soup, []) base_url (download_anchors (soup, []))
              Hres) with (items := @nil item) (seen := (∅ : gset str))
    as [[items seen] ->].
  { intros a Ha. unfold download_anchors in Ha.
    rewrite list_elem_of_filter in Ha. tauto. }
  destruct items as [|it items]; [|by eexists].
  destruct (fallback_loop_total (soup, []) base_url
              (find_all [H3_TAG; H4_TAG; A_TAG] (soup, [])) Hres)
    with (items := @nil item) as [fb ->]; [|by eexists].
  intros h Hh. by apply find_all_elem in Hh as [_ ?].
Qed.

Lemma extract_items_total_witness :
  exists items, extract_items doc_two_downloads BASE_URL 20 = Ok items.
Proof.
  apply (extract_items_total doc_two_downloads BASE_URL 20).
  intros a ref Ha Hget Hne.
  apply list_elem_of_In in Ha. vm_compute in Ha.
  destruct Ha as [<-|[<-|[]]]; vm_compute in Hget; inversion Hget; subst ref;
    eexists; vm_compute; reflexivity.
Defined.

(** Whatever the runtime, an exception of [urljoin] on the reference of a
    download anchor is the outcome of the extraction. *)
Lemma extract_items_propagates_urljoin_error `{PyRuntime} (e : exn) (top_n : Z) :
  urljoin BASE_URL BAD_REFERENCE = Raise e ->
  extract_items doc_bad_reference BASE_URL top_n = Raise e.
Proof.
  intros Hraise. unfold extract_items, primary_pass.
  assert (Hanchors : exists a,
             download_anchors (doc_bad_reference, []) = [a]
             /\ or_empty (get_attr HREF a) = BAD_REFERENCE).
  { eexists. split; vm_compute; reflexivity. }
  destruct Hanchors as (a & -> & Href).
  simpl anchor_loop. rewrite Href.
  change BAD_REFERENCE with [47; 47; 91] in *. by rewrite Hraise.
Qed.

(** C9. On a document whose download anchor carries a reference that
    [urljoin] rejects, [extract_items] does not return a list, empty or
    not: it ends with the [ValueError] of [urljoin], which nothing in it
    catches. *)
Lemma extract_items_raises_on_bad_reference :
  extract_items doc_bad_reference BASE_URL 20 = Raise ValueError.
Proof. vm_compute. reflexivity. Qed.

(* ------------------------------------------------------------------------- *)
(** ** The signature *)

Section Base64.
Import Codec.
Local Open Scope Z_scope.

(** Lists are read three octets at a time. *)
Lemma triples_ind {A} (P : list A -> Prop) :
  P [] -> (forall a, P [a]) -> (forall a b, P [a; b]) ->
  (forall a b c rest, P rest -> P (a :: b :: c :: rest)) ->
  forall l, P l.
Proof.
  intros H0 H1 H2 H3 l.
  assert (Hall : P l /\ (forall a, P (a :: l)) /\ (forall a b, P (a :: b :: l))).
  { induction l as [|x l (IH0 & IH1 & IH2)]; [by auto|].
    split; [apply IH1|]. split; [intros a; apply IH2|].
    intros a b. by apply H3. }
  apply Hall.
Qed.

Lemma b64_value_char v : 0 <= v < 64 -> b64_value (b64_char v) = Some v.
Proof.
  intros Hv. unfold b64_value, b64_char.
  repeat match goal with
         | |- context [?a <? ?b] => destruct (Z.ltb_spec a b)
         | |- context [?a <=? ?b] => destruct (Z.leb_spec a b)
         | |- context [?a =? ?b] => destruct (Z.eqb_spec a b)
         | _ => progress simpl
         end; try lia; f_equal; lia.
Qed.

Lemma b64_char_not_pad v : 0 <= v < 64 -> (b64_char v =? B64_PAD) = false.
Proof.
  intros Hv. unfold b64_char, B64_PAD. apply Z.eqb_neq.
  repeat match goal with
         | |- context [?a <? ?b] => destruct (Z.ltb_spec a b)
         | |- context [?a =? ?b] => destruct (Z.eqb_spec a b)
         end; lia.
Qed.

Lemma b64_char_ascii v : 0 <= v < 64 -> 0 <= b64_char v < 128.
Proof.
  intros Hv. unfold b64_char.
  repeat match goal with
         | |- context [?a <? ?b] => destruct (Z.ltb_spec a b)
         | |- context [?a =? ?b] => destruct (Z.eqb_spec a b)
         end; lia.
Qed.

Lemma sextets_range n :
  0 <= n < 16777216 -> Forall (fun s => 0 <= s < 64) (sextets n).
Proof.
  intros Hn. unfold sextets. repeat constructor;
    Z.div_mod_to_equations; lia.
Qed.

Lemma group_of_sextets n :
  0 <= n < 16777216 ->
  group_value (n / 262144) ((n / 4096) mod 64) ((n / 64) mod 64) (n mod 64) = n.
Proof. intros Hn. unfold group_value. Z.div_mod_to_equations. lia. Qed.

Lemma octets_of_group a b c :
  is_byte a -> is_byte b -> is_byte c ->
  octets (a * 65536 + b * 256 + c) = [a; b; c].
Proof.
  unfold is_byte, octets. intros Ha Hb Hc.
  repeat f_equal; Z.div_mod_to_equations; lia.
Qed.

(** Decoding what was encoded gives the octets back. *)
Lemma b64decode_encode bs :
  Forall is_byte bs -> b64decode (b64encode bs) = Some bs.
Proof.
  induction bs as [|a|a b|a b c rest IH] using triples_ind; intros Hbs.
  - done.
  - inversion Hbs as [|? ? Ha _]; subst. unfold is_byte in Ha.
    assert (Hn : 0 <= a * 65536 < 16777216) by lia.
    pose proof (sextets_range _ Hn) as Hs. unfold sextets in Hs.
    inversion Hs as [|? ? Hs1 Hs']; subst. inversion Hs' as [|? ? Hs2 _]; subst.
    simpl b64encode. unfold sextets. simpl map. simpl take. simpl app.
    unfold b64decode.
    rewrite !b64_value_char by done. simpl.
    f_equal. unfold octets, group_value. simpl take. f_equal.
    Z.div_mod_to_equations. lia.
  - inversion Hbs as [|? ? Ha Hbs']; subst. inversion Hbs' as [|? ? Hb _]; subst.
    unfold is_byte in Ha, Hb.
    assert (Hn : 0 <= a * 65536 + b * 256 < 16777216) by lia.
    pose proof (sextets_range _ Hn) as Hs. unfold sextets in Hs.
    inversion Hs as [|? ? Hs1 Hs']; subst. inversion Hs' as [|? ? Hs2 Hs'']; subst.
    inversion Hs'' as [|? ? Hs3 _]; subst.
    simpl b64encode. unfold sextets. simpl map. simpl take. simpl app.
    unfold b64decode.
    rewrite !b64_value_char by done. simpl.
    rewrite b64_char_not_pad by done.
    f_equal. unfold octets, group_value. simpl take.
    repeat f_equal; Z.div_mod_to_equations; lia.
  - inversion Hbs as [|? ? Ha Hbs']; subst. inversion Hbs' as [|? ? Hb Hbs'']; subst.
    inversion Hbs'' as [|? ? Hc Hrest]; subst.
    assert (Hn : 0 <= a * 65536 + b * 256 + c < 16777216)
      by (unfold is_byte in *; lia).
    pose proof (sextets_range _ Hn) as Hs. unfold sextets in Hs.
    inversion Hs as [|? ? Hs1 Hs']; subst. inversion Hs' as [|? ? Hs2 Hs'']; subst.
    inversion Hs'' as [|? ? Hs3 Hs''']; subst. inversion Hs''' as [|? ? Hs4 _]; subst.
    change (b64encode (a :: b :: c :: rest))
      with (map b64_char (sextets (a * 65536 + b * 256 + c)) ++ b64encode rest).
    unfold sextets. simpl map. simpl app.
    cbn [b64decode]. fold b64decode.
    rewrite !b64_value_char by done.
    rewrite b64_char_not_pad by done.
    rewrite IH by done.
    rewrite group_of_sextets by done. by rewrite octets_of_group.
Qed.

Lemma b64encode_length bs :
  length (b64encode bs) = (4 * ((length bs + 2) / 3))%nat.
Proof.
  induction bs as [|a|a b|a b c rest IH] using triples_ind; try done.
  change (b64encode (a :: b :: c :: rest))
    with (map b64_char (sextets (a * 65536 + b * 256 + c)) ++ b64encode rest).
  rewrite length_app, IH. simpl length.
  replace (S (S (S (length rest))) + 2)%nat with (1 * 3 + (length rest + 2))%nat by lia.
  rewrite Nat.div_add_l by done. lia.
Qed.

Lemma b64encode_chars bs :
  Forall is_byte bs -> Forall b64_text_char (b64encode bs).
Proof.
  assert (Hc : forall n, 0 <= n < 16777216 ->
                         Forall b64_text_char (map b64_char (sextets n))).
  { intros n Hn. apply Forall_fmap. eapply Forall_impl; [by apply sextets_range|].
    intros v Hv. right. by exists v. }
  induction bs as [|a|a b|a b c rest IH] using triples_ind; intros Hbs.
  - constructor.
  - inversion Hbs as [|? ? Ha _]; subst. unfold is_byte in Ha.
    simpl b64encode.
    repeat (apply List.Forall_cons;
            [first [by left
                   |right; eexists; (split; [|reflexivity]);
                    Z.div_mod_to_equations; lia]|]).
    apply List.Forall_nil.
  - inversion Hbs as [|? ? Ha Hbs']; subst. inversion Hbs' as [|? ? Hb _]; subst.
    unfold is_byte in Ha, Hb.
    simpl b64encode.
    repeat (apply List.Forall_cons;
            [first [by left
                   |right; eexists; (split; [|reflexivity]);
                    Z.div_mod_to_equations; lia]|]).
    apply List.Forall_nil.
  - inversion Hbs as [|? ? Ha Hbs']; subst. inversion Hbs' as [|? ? Hb Hbs'']; subst.
    inversion Hbs'' as [|? ? Hc' Hrest]; subst.
    change (b64encode (a :: b :: c :: rest))
      with (map b64_char (sextets (a * 65536 + b * 256 + c)) ++ b64encode rest).
    apply Forall_app. split; [|by apply IH].
    apply Hc. unfold is_byte in *. lia.
Qed.

End Base64.

Section Signature.
Import Codec Sha256.
Local Open Scope Z_scope.

Lemma land_255_is_byte x : is_byte (Z.land x 0xFF).
Proof.
  unfold is_byte. change 0xFF with (Z.ones 8).
  rewrite Z.land_ones by lia. apply Z.mod_pos_bound. lia.
Qed.

Lemma be_bytes_are_bytes n x : Forall is_byte (be_bytes n x).
Proof.
  unfold be_bytes. apply Forall_forall. intros b Hb.
  apply list_elem_of_In, in_map_iff in Hb as (i & <- & _).
  apply land_255_is_byte.
Qed.

Lemma digest_of_length r : length (digest_of r) = 32%nat.
Proof. reflexivity. Qed.

Lemma digest_of_bytes r : Forall is_byte (digest_of r).
Proof.
  unfold digest_of. apply Forall_forall. intros b Hb.
  apply list_elem_of_In, in_flat_map in Hb as (x & _ & Hb).
  pose proof (be_bytes_are_bytes 4 x) as Hall.
  rewrite Forall_forall in Hall. by apply Hall, list_elem_of_In.
Qed.

(** An HMAC-SHA256 digest is thirty-two octets. *)
Lemma hmac_sha256_length key msg : length (hmac_sha256 key msg) = 32%nat.
Proof. unfold hmac_sha256, sha256. apply digest_of_length. Qed.

Lemma hmac_sha256_bytes key msg : Forall is_byte (hmac_sha256 key msg).
Proof. unfold hmac_sha256, sha256. apply digest_of_bytes. Qed.

Lemma encode_ascii_text bs :
  Forall b64_text_char bs -> map Z.of_N (decode_ascii bs) = bs.
Proof.
  unfold decode_ascii. induction 1 as [|c cs Hc _ IH]; [done|].
  simpl. rewrite IH. f_equal. apply Z2N.id.
  destruct Hc as [->|(v & Hv & ->)]; [done|]. by apply b64_char_ascii.
Qed.

Lemma decode_ascii_inj bs bs' :
  Forall b64_text_char bs -> Forall b64_text_char bs' ->
  decode_ascii bs = decode_ascii bs' -> bs = bs'.
Proof.
  intros Hbs Hbs' Heq. rewrite <- (encode_ascii_text bs), <- (encode_ascii_text bs')
    by done. by rewrite Heq.
Qed.

Lemma b64encode_inj bs bs' :
  Forall is_byte bs -> Forall is_byte bs' ->
  b64encode bs = b64encode bs' -> bs = bs'.
Proof.
  intros Hbs Hbs' Heq. apply (f_equal b64decode) in Heq.
  rewrite !b64decode_encode in Heq by done. by inversion Heq.
Qed.

Lemma Ok_inj {A} (a b : A) : Ok a = Ok b -> a = b.
Proof. intros Heq. by inversion Heq. Qed.

(** What [feishu_sign] returns, when it returns: the text of the base64
    encoding of the HMAC of the encoded message under the encoded secret. *)
Lemma feishu_sign_inv ts secret sig :
  feishu_sign ts secret = Ok sig ->
  exists key msg,
    utf8_encode secret = Ok key
    /\ utf8_encode (ts ++ [NEWLINE] ++ secret) = Ok msg
    /\ sig = decode_ascii (b64encode (hmac_sha256 key msg)).
Proof.
  unfold feishu_sign.
  destruct (utf8_encode (ts ++ [NEWLINE] ++ secret)) as [msg|]; [|done].
  destruct (utf8_encode secret) as [key|]; [|done].
  intros Heq%Ok_inj. exists key, msg. by rewrite Heq.
Qed.

Lemma utf8_encode_app s t bs bt :
  utf8_encode s = Ok bs -> utf8_encode t = Ok bt ->
  utf8_encode (s ++ t) = Ok (bs ++ bt).
Proof.
  revert bs. induction s as [|c s IH]; intros bs; simpl.
  - by intros [= <-].
  - destruct (encode_char (Z.of_N c)) as [b|]; [|done].
    destruct (utf8_encode s) as [bs'|]; [|done].
    intros [= <-] Ht. rewrite (IH bs') by done. by rewrite <- app_assoc.
Qed.

Lemma utf8_encode_digits n :
  utf8_encode (repeat 49%N n) = Ok (repeat 49 n).
Proof. induction n as [|n IH]; simpl; [done|]. by rewrite IH. Qed.

End Signature.

(** No function into the words of a fixed length over a finite alphabet
    is injective on the natural numbers. *)
Section Pigeonhole.
Context {X : Type}.

Lemma all_words_complete (alphabet : list X) (w : list X) :
  Forall (fun c => c ∈ alphabet) w -> w ∈ all_words alphabet (length w).
Proof.
  induction 1 as [|c w Hc _ IH]; simpl; [by left|].
  apply list_elem_of_In, in_flat_map. exists c. split; [by apply list_elem_of_In|].
  apply in_map, list_elem_of_In, IH.
Qed.

Lemma no_injection_into_words (alphabet : list X) (k : nat) (f : nat -> list X) :
  (forall n, length (f n) = k /\ Forall (fun c => c ∈ alphabet) (f n)) ->
  ~ (forall i j, i <> j -> f i <> f j).
Proof.
  intros Hf Hinj.
  set (codomain := all_words alphabet k).
  set (sample := map f (seq 0 (S (length codomain)))).
  assert (Hnd : List.NoDup sample).
  { unfold sample. generalize (S (length codomain)). generalize 0%nat.
    intros start len. revert start.
    induction len as [|len IH]; intros start; simpl; constructor.
    - intros Hin. apply in_map_iff in Hin as (j & Heq & Hj).
      apply in_seq in Hj. apply (Hinj j start); [lia|done].
    - apply IH. }
  assert (Hincl : incl sample codomain).
  { intros w Hw. unfold sample in Hw. apply in_map_iff in Hw as (n & <- & _).
    destruct (Hf n) as [<- Hall]. apply list_elem_of_In.
    by apply all_words_complete. }
  pose proof (List.NoDup_incl_length Hnd Hincl) as Hlen.
  unfold sample in Hlen. rewrite length_map, length_seq in Hlen. lia.
Qed.

End Pigeonhole.

(* ------------------------------------------------------------------------- *)
(** ** The notifier and the orchestrator *)

Lemma notifications_app tr1 tr2 :
  notifications (tr1 ++ tr2) = notifications tr1 ++ notifications tr2.
Proof.
  induction tr1 as [|[] tr1 IH]; simpl; [done|by rewrite IH|done..].
Qed.

Lemma saves_app tr1 tr2 : saves (tr1 ++ tr2) = saves tr1 ++ saves tr2.
Proof.
  induction tr1 as [|[] tr1 IH]; simpl; [done|done|done|by rewrite IH|done].
Qed.

Lemma posts_app tr1 tr2 : posts (tr1 ++ tr2) = posts tr1 ++ posts tr2.
Proof.
  induction tr1 as [|[] tr1 IH]; simpl; [done|done|by rewrite IH|done|done].
Qed.

(** What a call of [notify_feishu] does: it leaves the state file alone and
    adds to the trace its own entry and at most one request. Which of the
    three outcomes it is depends on the webhook and the signing only. *)
Lemma notify_feishu_run env items w :
  notify_feishu env items w =
  let entered := trace w ++ [EnterNotify items] in
  match strip (getenv (FEISHU_WEBHOOK_URL env)) with
  | [] => (Ok tt, mk_world (state_file w) entered)
  | url =>
      match signing env with
      | Raise e => (Raise e, mk_world (state_file w) entered)
      | Ok (ts, sg) =>
          let body := mk_payload MSG_TEXT (digest items) ts sg in
          (respond env url body,
           mk_world (state_file w) (entered ++ [Post url body]))
      end
  end.
Proof.
  unfold notify_feishu, signing, mbind, M_bind, mret, M_ret, emit, lift.
  cbv zeta. simpl state_file. simpl trace.
  destruct (strip (getenv (FEISHU_WEBHOOK_URL env))) as [|c url]; [done|].
  destruct (strip (getenv (FEISHU_SECRET env))) as [|d secret]; [done|].
  destruct (feishu_sign _ _); done.
Qed.

Lemma notify_feishu_frame env items w r w' :
  notify_feishu env items w = (r, w') ->
  state_file w' = state_file w
  /\ saves (trace w') = saves (trace w)
  /\ notifications (trace w') = notifications (trace w) ++ [items]
  /\ exists sent, posts (trace w') = posts (trace w) ++ sent
                  /\ (length sent <= 1)%nat.
Proof.
  rewrite notify_feishu_run. cbv zeta.
  destruct (strip (getenv (FEISHU_WEBHOOK_URL env))) as [|c url].
  - intros [= <- <-]. simpl.
    rewrite saves_app, notifications_app, posts_app. simpl.
    rewrite !app_nil_r. repeat split. exists []. split; [by rewrite app_nil_r|simpl; lia].
  - destruct (signing env) as [[ts sg]|e]; intros [= <- <-]; simpl.
    + rewrite !saves_app, !notifications_app, !posts_app. simpl.
      rewrite !app_nil_r. repeat split. eexists [_]. split; [reflexivity|]. simpl. lia.
    + rewrite saves_app, notifications_app, posts_app. simpl.
      rewrite !app_nil_r. repeat split. exists []. split; [by rewrite app_nil_r|simpl; lia].
Qed.

Section OrchestratorFacts.
Context `{PyRuntime}.

Lemma list_to_set_list_of_set (X : gset str) :
  list_to_set (list_of_set X) = X.
Proof.
  apply set_eq. intros x.
  rewrite elem_of_list_to_set, (list_of_set_perm X), elem_of_elements. done.
Qed.

Lemma seen_of_insert (st : state) (l : list str) :
  seen_of (<[ SEEN_HREFS := l ]> st) = list_to_set l.
Proof. unfold seen_of. by rewrite lookup_insert_eq. Qed.

(** The guarded call of the notifier, as [main] makes it: whatever the
    outcome, control goes on, the file is untouched, and the call is on the
    trace. *)
Lemma guarded_notify env items w :
  exists w',
    try_except (notify_feishu env items) (fun e => print (NotifyFailed e)) w
    = (Ok tt, w')
    /\ state_file w' = state_file w
    /\ saves (trace w') = saves (trace w)
    /\ notifications (trace w') = notifications (trace w) ++ [items]
    /\ exists sent, posts (trace w') = posts (trace w) ++ sent
                    /\ (length sent <= 1)%nat.
Proof.
  unfold try_except.
  destruct (notify_feishu env items w) as [[[]|e] w1] eqn:Hn;
    apply notify_feishu_frame in Hn as (Hf & Hs & Hn & Hp).
  - by exists w1.
  - eexists. split; [reflexivity|]. simpl.
    rewrite saves_app, notifications_app, posts_app. simpl.
    rewrite !app_nil_r. done.
Qed.

Lemma load_state_run w : load_state w = (Ok (loaded (state_file w)), w).
Proof. unfold load_state, loaded. by destruct (state_file w). Qed.

(** [main] up to the policies: the state is loaded, the page fetched and
    the items extracted; a failure of either ends the run there. *)
Lemma run_unfold env file :
  run env file =
  match page env with
  | Raise e => (Raise e, mk_world file [])
  | Ok soup =>
      match extract_items soup BASE_URL (TOP_N env) with
      | Raise e => (Raise e, mk_world file [])
      | Ok items =>
          let st := loaded file in
          let seen := seen_of st in
          let new_items := new_items_of seen items in
          let w := mk_world file [] in
          if bool_decide (seen = ∅) && bool_decide (items <> [])
             && negb (FORCE_NOTIFY env)
          then (save_state (<[ SEEN_HREFS := map href items ]> st) ;;
                print Initialized) w
          else if FORCE_NOTIFY env then
            match items with
            | it :: _ =>
                (try_except (notify_feishu env [it])
                            (fun e => print (NotifyFailed e)) ;;
                 print ForceSent) w
            | [] => print NoItemsForForce w
            end
          else
            match new_items with
            | [] => print NoNewItems w
            | _ :: _ =>
                (try_except (notify_feishu env new_items)
                            (fun e => print (NotifyFailed e)) ;;
                 save_state
                   (<[ SEEN_HREFS :=
                         list_of_set (seen ∪ list_to_set (map href new_items)) ]>
                      st) ;;
                 print (Notified (length new_items))) w
            end
      end
  end.
Proof.
  unfold run, main. unfold mbind at 1, M_bind at 1.
  rewrite load_state_run. simpl state_file.
  unfold mbind at 1, M_bind at 1, lift at 1.
  destruct (page env) as [soup|e]; [|done].
  unfold mbind at 1, M_bind at 1, lift at 1.
  destruct (extract_items soup BASE_URL (TOP_N env)) as [items|e]; [|done].
  cbv zeta. fold (seen_of (loaded file)).
  fold (new_items_of (seen_of (loaded file)) items).
  destruct (_ && _ && _); [done|].
  destruct (FORCE_NOTIFY env); [|by destruct (new_items_of _ _)].
  destruct items as [|it items]; [done|]. simpl. by rewrite take_0.
Qed.

End OrchestratorFacts.

(** C2. A run that loads an empty seen-set, extracts at least one item and
    is not forced writes the state with [seen_hrefs] set to the hrefs of all
    the extracted items, prints that it initialized, and returns; the
    notifier is not called and no request is sent. *)
Theorem first_run_initializes `{PyRuntime} (env : environment)
    (file : option state) (soup : node) (items : list item) :
  FORCE_NOTIFY env = false ->
  page env = Ok soup ->
  extract_items soup BASE_URL (TOP_N env) = Ok items ->
  seen_of (loaded file) = ∅ ->
  items <> [] ->
  let st := <[ SEEN_HREFS := hrefs items ]> (loaded file) in
  run env file = (Ok tt, mk_world (Some st) [Save st; Print Initialized])
  /\ seen_of st = list_to_set (hrefs items)
  /\ notifications (trace (snd (run env file))) = []
  /\ posts (trace (snd (run env file))) = [].
Proof.
  intros Hforce Hpage Hitems Hseen Hne st.
  assert (Hrun : run env file
                 = (Ok tt, mk_world (Some st) [Save st; Print Initialized])).
  { rewrite run_unfold, Hpage, Hitems, Hforce. cbv zeta.
    rewrite !bool_decide_eq_true_2 by done. done. }
  rewrite Hrun. split; [done|]. split; [apply seen_of_insert|]. done.
Qed.

Lemma first_run_initializes_witness :
  let st := <[ SEEN_HREFS := hrefs [report_2024q3] ]> (loaded None) in
  run (sample_env false) None
  = (Ok tt, mk_world (Some st) [Save st; Print Initialized])
  /\ seen_of st = list_to_set (hrefs [report_2024q3])
  /\ notifications (trace (snd (run (sample_env false) None))) = []
  /\ posts (trace (snd (run (sample_env false) None))) = [].
Proof.
  apply (first_run_initializes (sample_env false) None doc_two_downloads
           [report_2024q3]).
  - reflexivity.
  - reflexivity.
  - vm_compute. reflexivity.
  - vm_compute. reflexivity.
  - discriminate.
Defined.

(** C3. A forced run never writes the state file, which is at the end what
    it was at the start, and calls the notifier at most once, with the
    first extracted item alone, so that at most one request is sent;
    this holds for every state, every page and every outcome of the call. *)
Theorem force_notify_leaves_state `{PyRuntime} (env : environment)
    (file : option state) :
  FORCE_NOTIFY env = true ->
  let '(r, w) := run env file in
  state_file w = file
  /\ saves (trace w) = []
  /\ notifications (trace w) =
     match page env with
     | Ok soup =>
         match extract_items soup BASE_URL (TOP_N env) with
         | Ok (it :: _) => [[it]]
         | _ => []
         end
     | Raise _ => []
     end
  /\ (length (posts (trace w)) <= 1)%nat.
Proof.
  intros Hforce. rewrite run_unfold, Hforce.
  destruct (page env) as [soup|e]; [|simpl; repeat split; lia].
  destruct (extract_items soup BASE_URL (TOP_N env)) as [items|e];
    [|simpl; repeat split; lia].
  cbv zeta. rewrite andb_false_r.
  destruct items as [|it items]; [simpl; repeat split; lia|].
  unfold mbind, M_bind.
  destruct (guarded_notify env [it] (mk_world file []))
    as (w' & -> & Hf & Hs & Hn & sent & Hp & Hlen).
  simpl in *. rewrite saves_app, notifications_app, posts_app, Hs, Hn, Hf, Hp.
  simpl. rewrite app_nil_r. done.
Qed.

Lemma force_notify_leaves_state_witness :
  let '(r, w) := run (sample_env true) (Some sample_state) in
  state_file w = Some sample_state
  /\ saves (trace w) = []
  /\ notifications (trace w) =
     match page (sample_env true) with
     | Ok soup =>
         match extract_items soup BASE_URL (TOP_N (sample_env true)) with
         | Ok (it :: _) => [[it]]
         | _ => []
         end
     | Raise _ => []
     end
  /\ (length (posts (trace w)) <= 1)%nat.
Proof.
  apply (force_notify_leaves_state (sample_env true) (Some sample_state)).
  reflexivity.
Defined.

(** C4. A run that is not forced, is not the initialization of an empty
    seen-set, and finds at least one new item calls the notifier once with
    the new items and then, whatever the call did, writes a state whose
    seen-set is the union of the loaded seen-set and the hrefs of the new
    items, and returns. *)
Theorem steady_state_persists_union `{PyRuntime} (env : environment)
    (file : option state) (soup : node) (items : list item) :
  FORCE_NOTIFY env = false ->
  page env = Ok soup ->
  extract_items soup BASE_URL (TOP_N env) = Ok items ->
  ~ (seen_of (loaded file) = ∅ /\ items <> []) ->
  new_items_of (seen_of (loaded file)) items <> [] ->
  let seen := seen_of (loaded file) in
  let new_items := new_items_of seen items in
  exists st' attempt,
    run env file =
      (Ok tt,
       mk_world (Some st')
                (attempt ++ [Save st'; Print (Notified (length new_items))]))
    /\ notifications attempt = [new_items]
    /\ saves attempt = []
    /\ seen_of st' = seen ∪ list_to_set (hrefs new_items).
Proof.
  intros Hforce Hpage Hitems Hsteady Hnew seen new_items.
  assert (Hseen : seen_of (loaded file) <> ∅).
  { intros Hempty. apply Hsteady. split; [done|].
    intros ->. by apply Hnew. }
  rewrite run_unfold, Hpage, Hitems, Hforce. cbv zeta.
  rewrite (bool_decide_eq_false_2 (seen_of (loaded file) = ∅)) by done.
  simpl andb. cbv iota.
  fold seen. fold new_items. fold new_items in Hnew.
  destruct new_items as [|it rest] eqn:Hni; [done|]. rewrite <- Hni.
  unfold mbind, M_bind.
  destruct (guarded_notify env new_items (mk_world file []))
    as (w' & -> & Hf & Hs & Hn & _).
  unfold save_state, print, emit. simpl. rewrite <- app_assoc. simpl.
  eexists _, (trace w'). split; [reflexivity|].
  simpl in *. split; [done|]. split; [done|].
  rewrite seen_of_insert. apply list_to_set_list_of_set.
Qed.

Lemma steady_state_persists_union_witness :
  let seen := seen_of (loaded (Some sample_state)) in
  let new_items := new_items_of seen [report_2024q3] in
  exists st' attempt,
    run (sample_env false) (Some sample_state) =
      (Ok tt,
       mk_world (Some st')
                (attempt ++ [Save st'; Print (Notified (length new_items))]))
    /\ notifications attempt = [new_items]
    /\ saves attempt = []
    /\ seen_of st' = seen ∪ list_to_set (hrefs new_items).
Proof.
  apply (steady_state_persists_union (sample_env false) (Some sample_state)
           doc_two_downloads [report_2024q3]).
  - reflexivity.
  - reflexivity.
  - vm_compute. reflexivity.
  - intros [Hempty _]. vm_compute in Hempty. discriminate.
  - vm_compute. discriminate.
Defined.

(** C5. In a run that is not forced, every state that is written has a
    seen-set that contains the seen-set loaded at the start; the run writes
    at most once, and the file then holds what was written. *)
Theorem seen_set_only_grows `{PyRuntime} (env : environment)
    (file : option state) :
  FORCE_NOTIFY env = false ->
  let w := snd (run env file) in
  (forall st', st' ∈ saves (trace w) -> seen_of (loaded file) ⊆ seen_of st')
  /\ (saves (trace w) = [] /\ state_file w = file
      \/ exists st', saves (trace w) = [st'] /\ state_file w = Some st').
Proof.
  intros Hforce. cbv zeta. rewrite run_unfold, Hforce.
  destruct (page env) as [soup|e];
    [|simpl; split; [by intros ? ?%elem_of_nil|by left]].
  destruct (extract_items soup BASE_URL (TOP_N env)) as [items|e];
    [|simpl; split; [by intros ? ?%elem_of_nil|by left]].
  cbv zeta. rewrite andb_true_r.
  destruct (bool_decide (seen_of (loaded file) = ∅)) eqn:Hseen; simpl andb.
  - apply bool_decide_eq_true in Hseen.
    destruct (bool_decide (items <> [])) eqn:Hitems.
    + simpl. split; [|right; by eexists].
      intros st' _. rewrite Hseen. apply empty_subseteq.
    + cbv iota. destruct (new_items_of _ _) as [|it rest] eqn:Hni.
      * simpl. split; [by intros ? ?%elem_of_nil|by left].
      * apply bool_decide_eq_false in Hitems.
        assert (items = []) as -> by (by destruct items; [|exfalso; apply Hitems]).
        done.
  - cbv iota. destruct (new_items_of _ _) as [|it rest] eqn:Hni.
    + simpl. split; [by intros ? ?%elem_of_nil|by left].
    + rewrite <- Hni. unfold mbind, M_bind.
      destruct (guarded_notify env (new_items_of (seen_of (loaded file)) items)
                  (mk_world file [])) as (w' & -> & Hf & Hs & Hn & _).
      unfold save_state, print, emit. simpl.
      rewrite !saves_app, Hs. simpl. split; [|right; by eexists].
      intros st' ->%list_elem_of_singleton.
      rewrite seen_of_insert, list_to_set_list_of_set. apply union_subseteq_l.
Qed.

Lemma seen_set_only_grows_witness :
  let w := snd (run (sample_env false) (Some sample_state)) in
  (forall st', st' ∈ saves (trace w) ->
               seen_of (loaded (Some sample_state)) ⊆ seen_of st')
  /\ (saves (trace w) = [] /\ state_file w = Some sample_state
      \/ exists st', saves (trace w) = [st'] /\ state_file w = Some st').
Proof.
  apply (seen_set_only_grows (sample_env false) (Some sample_state)).
  reflexivity.
Defined.

(** Reference values: hashlib, hmac (RFC 4231, test case 2) and base64
    (RFC 4648) on known inputs. *)
Example sha256_abc :
  Sha256.sha256 [97; 98; 99]%Z
  = [186; 120; 22; 191; 143; 1; 207; 234; 65; 65; 64; 222; 93; 174; 34; 35;
     176; 3; 97; 163; 150; 23; 122; 156; 180; 16; 255; 97; 242; 0; 21; 173]%Z.
Proof. vm_compute. reflexivity. Qed.

Example hmac_sha256_rfc4231_case2 :
  Sha256.hmac_sha256
    (map Z.of_N (U "Jefe")) (map Z.of_N (U "what do ya want for nothing?"))
  = [91; 220; 193; 70; 191; 96; 117; 78; 106; 4; 36; 38; 8; 149; 117; 199;
     90; 0; 63; 8; 157; 39; 57; 131; 157; 236; 88; 185; 100; 236; 56; 67]%Z.
Proof. vm_compute. reflexivity. Qed.

Example b64encode_rfc4648 :
  Codec.decode_ascii (Codec.b64encode (map Z.of_N (U "fooba"))) = U "Zm9vYmE=".
Proof. vm_compute. reflexivity. Qed.

Example feishu_sign_sample :
  feishu_sign (U "1700000000") (U "s3cret")
  = Ok (U "awbVqOKPToDBadVuZukL3iPdnsmBrRxvTcqnlgYUWc4=").
Proof. vm_compute. reflexivity. Qed.

Example feishu_sign_surrogate :
  feishu_sign (U "1700000000") [0xDC80] = Raise UnicodeEncodeError.
Proof. vm_compute. reflexivity. Qed.

(** The signature does depend on each of its inputs. *)
Example feishu_sign_depends_on_ts :
  feishu_sign (U "1700000001") (U "s3cret")
  <> feishu_sign (U "1700000000") (U "s3cret").
Proof. vm_compute. discriminate. Qed.

Example feishu_sign_depends_on_secret :
  feishu_sign (U "1700000000") (U "s3cres")
  <> feishu_sign (U "1700000000") (U "s3cret").
Proof. vm_compute. discriminate. Qed.

(** C6, as amended. Whenever [feishu_sign] returns a signature for [ts] and
    [secret], it is the base64 text of the HMAC-SHA256 digest, keyed by the
    UTF-8 octets of the secret, of the UTF-8 octets of [ts], a newline and
    the secret. It is a function of [ts] and [secret]; it is forty-four
    characters of base64 that decode to the digest; and two signatures are
    equal exactly when the two digests are. When [notify_feishu] attaches a
    signature, it is that of the decimal clock reading and the stripped
    secret, and the timestamp field is that reading. *)
Theorem feishu_sign_is_base64_hmac (ts secret sig : str) :
  feishu_sign ts secret = Ok sig ->
  exists key msg,
    Codec.utf8_encode secret = Ok key
    /\ Codec.utf8_encode (ts ++ [NEWLINE] ++ secret) = Ok msg
    /\ sig = Codec.decode_ascii (Codec.b64encode (Sha256.hmac_sha256 key msg))
    /\ length sig = 44%nat
    /\ Codec.b64decode (map Z.of_N sig) = Some (Sha256.hmac_sha256 key msg)
    /\ (forall ts' secret' sig' key' msg',
          Codec.utf8_encode secret' = Ok key' ->
          Codec.utf8_encode (ts' ++ [NEWLINE] ++ secret') = Ok msg' ->
          feishu_sign ts' secret' = Ok sig' ->
          (sig = sig' <->
           Sha256.hmac_sha256 key msg = Sha256.hmac_sha256 key' msg'))
    /\ (forall env t s,
          signing env = Ok (t, Some s) ->
          t = Some (str_of_int (clock env))
          /\ feishu_sign (str_of_int (clock env))
                         (strip (getenv (FEISHU_SECRET env))) = Ok s).
Proof.
  intros Hsig.
  destruct (feishu_sign_inv _ _ _ Hsig) as (key & msg & Hkey & Hmsg & ->).
  exists key, msg. split; [done|]. split; [done|]. split; [done|].
  pose proof (hmac_sha256_bytes key msg) as Hbytes.
  pose proof (b64encode_chars _ Hbytes) as Hchars.
  split; [|split; [|split]].
  - unfold Codec.decode_ascii. rewrite length_map, b64encode_length,
      hmac_sha256_length. reflexivity.
  - rewrite encode_ascii_text by done. by apply b64decode_encode.
  - intros ts' secret' sig' key' msg' Hkey' Hmsg' Hsig'.
    destruct (feishu_sign_inv _ _ _ Hsig') as (k2 & m2 & Hk2 & Hm2 & ->).
    rewrite Hkey' in Hk2. rewrite Hmsg' in Hm2.
    apply Ok_inj in Hk2 as <-. apply Ok_inj in Hm2 as <-.
    pose proof (hmac_sha256_bytes key' msg') as Hbytes'.
    split; [|by intros ->].
    intros Heq. apply decode_ascii_inj in Heq;
      [|done|by apply b64encode_chars].
    by apply b64encode_inj in Heq.
  - intros env t s. unfold signing.
    destruct (strip (getenv (FEISHU_SECRET env))) as [|c secret']; [done|].
    destruct (feishu_sign _ (c :: secret')) as [s'|e] eqn:Hs; [|done].
    intros Heq%Ok_inj. by inversion Heq; subst.
Qed.

Lemma feishu_sign_is_base64_hmac_witness :
  exists key msg,
    Codec.utf8_encode (U "s3cret") = Ok key
    /\ Codec.utf8_encode (U "1700000000" ++ [NEWLINE] ++ U "s3cret") = Ok msg
    /\ U "awbVqOKPToDBadVuZukL3iPdnsmBrRxvTcqnlgYUWc4="
       = Codec.decode_ascii (Codec.b64encode (Sha256.hmac_sha256 key msg))
    /\ length (U "awbVqOKPToDBadVuZukL3iPdnsmBrRxvTcqnlgYUWc4=") = 44%nat
    /\ Codec.b64decode
         (map Z.of_N (U "awbVqOKPToDBadVuZukL3iPdnsmBrRxvTcqnlgYUWc4="))
       = Some (Sha256.hmac_sha256 key msg)
    /\ (forall ts' secret' sig' key' msg',
          Codec.utf8_encode secret' = Ok key' ->
          Codec.utf8_encode (ts' ++ [NEWLINE] ++ secret') = Ok msg' ->
          feishu_sign ts' secret' = Ok sig' ->
          (U "awbVqOKPToDBadVuZukL3iPdnsmBrRxvTcqnlgYUWc4=" = sig' <->
           Sha256.hmac_sha256 key msg = Sha256.hmac_sha256 key' msg'))
    /\ (forall env t s,
          signing env = Ok (t, Some s) ->
          t = Some (str_of_int (clock env))
          /\ feishu_sign (str_of_int (clock env))
                         (strip (getenv (FEISHU_SECRET env))) = Ok s).
Proof.
  apply (feishu_sign_is_base64_hmac (U "1700000000") (U "s3cret")).
  vm_compute. reflexivity.
Defined.

(** C6 as stated fails: it is not the case that changing an input always
    changes the signature. The signatures are words of forty-four
    characters over sixty-five, and there are more timestamps than such
    words. *)
Lemma feishu_sign_not_injective :
  ~ (forall ts secret ts' secret' sig sig',
        (ts, secret) <> (ts', secret') ->
        feishu_sign ts secret = Ok sig ->
        feishu_sign ts' secret' = Ok sig' ->
        sig <> sig').
Proof.
  intros Hclaim.
  set (secret := [107] : str).
  set (f := fun n : nat =>
              Codec.b64encode
                (Sha256.hmac_sha256 [107%Z] (repeat 49%Z n ++ [10; 107]%Z))).
  assert (Hsign : forall n,
             feishu_sign (repeat 49 n) secret = Ok (Codec.decode_ascii (f n))).
  { intros n. unfold feishu_sign.
    rewrite (utf8_encode_app (repeat 49 n) ([NEWLINE] ++ secret)
               (repeat 49%Z n) [10; 107]%Z (utf8_encode_digits n) eq_refl).
    reflexivity. }
  set (alphabet :=
         Codec.B64_PAD :: map Codec.b64_char (map Z.of_nat (seq 0 64))).
  apply (no_injection_into_words alphabet 44 f).
  - intros n. unfold f. split.
    + rewrite b64encode_length, hmac_sha256_length. reflexivity.
    + eapply Forall_impl; [apply b64encode_chars, hmac_sha256_bytes|].
      intros c [->|(v & Hv & ->)]; [by left|]. right.
      apply list_elem_of_In, in_map, in_map_iff. exists (Z.to_nat v).
      split; [lia|]. apply in_seq. lia.
  - intros i j Hij Heq.
    apply (Hclaim (repeat 49 i) secret (repeat 49 j) secret
             (Codec.decode_ascii (f i)) (Codec.decode_ascii (f j))).
    + intros [= Hrep]. apply Hij.
      apply (f_equal length) in Hrep. by rewrite !repeat_length in Hrep.
    + apply Hsign.
    + apply Hsign.
    + by rewrite Heq.
Qed.

(* ========================================================================= *)
(** * Further properties *)

(* ------------------------------------------------------------------------- *)
(** ** More on the text normalizer *)

Section NormalizerShape.

Arguments is_space : simpl never.

Lemma words_from_are_words s :
  forall cur,
    Forall (fun c => is_space c = false) cur ->
    Forall is_word (words_from cur s).
Proof.
  assert (Hword : forall cur, cur <> [] ->
                    Forall (fun c => is_space c = false) cur ->
                    is_word (rev cur)).
  { intros cur Hne Hcur. split.
    - intros Hrev. apply Hne. apply (f_equal (@rev N)) in Hrev.
      by rewrite rev_involutive in Hrev.
    - apply Forall_forall. intros c Hc. rewrite Forall_forall in Hcur.
      apply Hcur. by apply list_elem_of_In, in_rev, list_elem_of_In. }
  induction s as [|c t IH]; intros cur Hcur; simpl.
  - destruct cur as [|d cur']; [constructor|].
    apply List.Forall_cons; [by apply Hword|constructor].
  - destruct (is_space c) eqn:Hc.
    + destruct cur as [|d cur']; [by apply IH|].
      apply List.Forall_cons; [by apply Hword|by apply IH].
    + apply IH. by apply List.Forall_cons.
Qed.

Lemma words_are_words s : Forall is_word (words s).
Proof. apply words_from_are_words. constructor. Qed.

Lemma words_from_app_word w :
  forall cur rest,
    Forall (fun c => is_space c = false) w ->
    words_from cur (w ++ rest) = words_from (rev w ++ cur) rest.
Proof.
  induction w as [|y w IH]; intros cur rest Hw; [done|].
  inversion Hw as [|? ? Hy Hw']; subst. simpl. rewrite Hy.
  rewrite IH by done. by rewrite <- app_assoc.
Qed.

(** The words of words joined by single spaces are those words. *)
Lemma words_join ws : Forall is_word ws -> words (join [SPACE] ws) = ws.
Proof.
  unfold words. induction ws as [|w rest IH]; intros Hws; [done|].
  inversion Hws as [|? ? [Hne Hw] Hrest]; subst.
  destruct rest as [|w2 rest].
  - simpl. rewrite <- (app_nil_r w) at 1. rewrite words_from_app_word by done.
    simpl. rewrite app_nil_r.
    destruct (rev w) eqn:Hrev.
    + exfalso. apply Hne. apply (f_equal (@rev N)) in Hrev.
      by rewrite rev_involutive in Hrev.
    + by rewrite <- Hrev, rev_involutive.
  - rewrite join_cons by done. rewrite words_from_app_word by done.
    rewrite app_nil_r. simpl app. simpl words_from.
    change (is_space SPACE) with true. cbv iota.
    destruct (rev w) eqn:Hrev.
    + exfalso. apply Hne. apply (f_equal (@rev N)) in Hrev.
      by rewrite rev_involutive in Hrev.
    + rewrite <- Hrev, rev_involutive. f_equal. by apply IH.
Qed.

Lemma join_words_nil ws :
  Forall is_word ws -> join [SPACE] ws = [] -> ws = [].
Proof.
  destruct ws as [|w rest]; [done|]. intros Hws Hj.
  inversion Hws as [|? ? [Hne _] _]; subst.
  destruct rest; simpl in Hj; [done|].
  by destruct w.
Qed.

(** Where a whitespace character sits in a string that starts with a word,
    it sits after the word. *)
Lemma split_after_word w :
  forall pre c post x,
    Forall (fun c => is_space c = false) w ->
    is_space c = true ->
    pre ++ c :: post = w ++ x ->
    exists pre', pre = w ++ pre' /\ x = pre' ++ c :: post.
Proof.
  induction w as [|y w IH]; intros pre c post x Hw Hc Heq.
  - by exists pre.
  - inversion Hw as [|? ? Hy Hw']; subst.
    destruct pre as [|p pre]; simpl in Heq.
    + inversion Heq; subst. congruence.
    + inversion Heq as [[Hp Heq']]; subst.
      destruct (IH pre c post x Hw' Hc Heq') as (pre' & -> & ->).
      by exists pre'.
Qed.

Lemma join_words_shape ws :
  Forall is_word ws ->
  forall pre c post,
    join [SPACE] ws = pre ++ c :: post ->
    is_space c = true ->
    c = SPACE /\ pre <> [] /\ exists d post', post = d :: post' /\ is_space d = false.
Proof.
  induction ws as [|w rest IH]; intros Hws pre c post Heq Hc.
  - by destruct pre.
  - inversion Hws as [|? ? [Hne Hw] Hrest]; subst.
    destruct rest as [|w2 rest].
    + simpl in Heq. rewrite <- (app_nil_r w) in Heq. symmetry in Heq.
      destruct (split_after_word _ _ _ _ _ Hw Hc Heq) as (pre' & _ & Hnil).
      by destruct pre'.
    + rewrite join_cons in Heq by done. symmetry in Heq.
      destruct (split_after_word _ _ _ _ _ Hw Hc Heq) as (pre' & -> & Htail).
      destruct pre' as [|p pre'].
      * cbn [app] in Htail. injection Htail as Hsp Hpost. subst post.
        split; [done|]. split; [by destruct w|].
        inversion Hrest as [|? ? [Hne2 Hw2] _]; subst.
        destruct w2 as [|d w2']; [done|].
        inversion Hw2; subst.
        destruct rest; simpl; eauto.
      * cbn [app] in Htail. injection Htail as Hsp Htail'.
        destruct (IH Hrest pre' c post Htail' Hc) as (-> & _ & Hpost).
        split; [done|]. split; [by destruct w|]. done.
Qed.

End NormalizerShape.

(** X1. Normalizing twice is normalizing once. *)
Theorem norm_text_idempotent (s : option str) :
  norm_text (Some (norm_text s)) = norm_text s.
Proof.
  assert (Hsome : forall t, norm_text (Some (norm_text (Some t)))
                            = norm_text (Some t)).
  { intros t. rewrite (norm_text_words (norm_text (Some t))).
    rewrite (norm_text_words t). by rewrite words_join by apply words_are_words. }
  destruct s as [t|]; [apply Hsome|reflexivity].
Qed.

(** X2. In a normalized text every whitespace character is a plain space
    that stands strictly inside the text and is followed by a character
    that is not whitespace: no leading, trailing or repeated blank, and no
    tab or newline, is left. *)
Theorem norm_text_shape (s : option str) (pre post : str) (c : N) :
  norm_text s = pre ++ c :: post ->
  is_space c = true ->
  c = SPACE /\ pre <> []
  /\ exists d post', post = d :: post' /\ is_space d = false.
Proof.
  destruct s as [t|]; [|by destruct pre].
  rewrite norm_text_words. apply join_words_shape, words_are_words.
Qed.

Lemma norm_text_shape_witness :
  32 = SPACE /\ [104; 105] <> []
  /\ exists d post', [116; 104; 101; 114; 101] = d :: post' /\ is_space d = false.
Proof.
  apply (norm_text_shape (Some [9; 104; 105; 10; 32; 116; 104; 101; 114; 101; 32])
           [104; 105] [116; 104; 101; 114; 101] 32).
  - vm_compute. reflexivity.
  - reflexivity.
Defined.

(** X3. The normalized text is empty exactly when the input is missing,
    empty or made of whitespace only. *)
Theorem norm_text_empty_iff (s : option str) :
  norm_text s = [] <-> all_space (or_empty s) = true.
Proof.
  assert (Hsome : forall t, norm_text (Some t) = [] <-> all_space t = true).
  { intros t. rewrite norm_text_words. split.
    - intros Hj. apply join_words_nil in Hj; [|apply words_are_words].
      destruct (all_space t) eqn:Ht; [done|].
      exfalso. apply (words_from_nonempty [] t); [by right|done].
    - intros Ht. unfold words. by rewrite words_from_all_space. }
  destruct s as [[|c t]|]; [done| |done].
  apply Hsome.
Qed.

(* ------------------------------------------------------------------------- *)
(** ** Substrings and dates *)

Section Substrings.

Lemma starts_with_prefix needle hay :
  starts_with needle hay = true <-> exists post, hay = needle ++ post.
Proof.
  revert hay. induction needle as [|a n IH]; intros hay; simpl.
  - split; [by exists hay|done].
  - destruct hay as [|b h]; [split; [done|by intros [? ?]]|].
    rewrite andb_true_iff, N.eqb_eq, IH. split.
    + intros [-> [post ->]]. by exists post.
    + intros [post [= -> ->]]. split; [done|by exists post].
Qed.

(** [contains] is the substring test. *)
Lemma contains_substring needle hay :
  contains needle hay = true <-> exists pre post, hay = pre ++ needle ++ post.
Proof.
  induction hay as [|b h IH]; simpl.
  - rewrite orb_false_r, starts_with_prefix. split.
    + intros [post Heq]. by exists [], post.
    + intros (pre & post & Heq). destruct pre; [by exists post|done].
  - rewrite orb_true_iff, starts_with_prefix, IH. split.
    + intros [[post Heq]|(pre & post & ->)]; [by exists [], post|].
      by exists (b :: pre), post.
    + intros (pre & post & Heq). destruct pre as [|p pre].
      * left. by exists post.
      * right. inversion Heq; subst. by exists pre, post.
Qed.

Lemma starts_with_separator needle :
  forall a c b,
    c ∉ needle ->
    starts_with needle (a ++ c :: b) = starts_with needle a.
Proof.
  induction needle as [|x n IH]; intros a c b Hc; [by destruct a|].
  apply not_elem_of_cons in Hc as [Hxc Hn].
  destruct a as [|y a]; simpl.
  - destruct (N.eqb_spec x c); [congruence|done].
  - by rewrite IH.
Qed.

(** A needle cannot lie across a character it does not have. *)
Lemma contains_separator needle a c b :
  needle <> [] -> c ∉ needle ->
  contains needle (a ++ c :: b) = contains needle a || contains needle b.
Proof.
  intros Hne Hc. induction a as [|y a IH].
  - simpl app. change (contains needle (c :: b))
      with (starts_with needle (c :: b) || contains needle b).
    pose proof (starts_with_separator needle [] c b Hc) as Hs.
    cbn [app] in Hs. rewrite Hs.
    destruct needle; [done|]. simpl. done.
  - change (contains needle ((y :: a) ++ c :: b))
      with (starts_with needle ((y :: a) ++ c :: b)
            || contains needle (a ++ c :: b)).
    rewrite (starts_with_separator needle (y :: a) c b Hc), IH.
    change (contains needle (y :: a))
      with (starts_with needle (y :: a) || contains needle a).
    by rewrite orb_assoc.
Qed.

Lemma contains_words needle s :
  needle <> [] -> Forall (fun c => is_space c = false) needle ->
  forall cur,
    contains needle (rev cur ++ s) = existsb (contains needle) (words_from cur s).
Proof.
  intros Hne Hneedle.
  assert (Hnil : contains needle [] = false) by (by destruct needle).
  assert (Hsep : forall c, is_space c = true -> c ∉ needle).
  { intros c Hc Hin. rewrite Forall_forall in Hneedle.
    apply Hneedle in Hin. congruence. }
  induction s as [|c t IH]; intros cur.
  - rewrite app_nil_r. simpl. destruct cur as [|d cur']; [done|].
    simpl existsb. by rewrite orb_false_r.
  - simpl words_from. destruct (is_space c) eqn:Hc.
    + rewrite contains_separator by auto.
      pose proof (IH []) as IH0. cbn [rev app] in IH0.
      destruct cur as [|d cur'].
      * cbn [rev]. by rewrite Hnil, IH0.
      * cbn [existsb]. by rewrite IH0.
    + rewrite <- IH. simpl rev. by rewrite <- app_assoc.
Qed.

End Substrings.

(** X4. A needle without whitespace occurs in the normalized text exactly
    when it occurs in the text: the marker tests of the extraction give the
    same answer on raw and on normalized text. *)
Theorem norm_text_keeps_markers (needle s : str) :
  needle <> [] ->
  Forall (fun c => is_space c = false) needle ->
  contains needle (norm_text (Some s)) = contains needle s.
Proof.
  intros Hne Hneedle.
  rewrite (contains_words needle s Hne Hneedle []
           : contains needle s = existsb (contains needle) (words s)).
  rewrite (contains_words needle (norm_text (Some s)) Hne Hneedle []
           : contains needle (norm_text (Some s))
             = existsb (contains needle) (words (norm_text (Some s)))).
  rewrite norm_text_words. by rewrite words_join by apply words_are_words.
Qed.

Lemma norm_text_keeps_markers_witness :
  contains MARK_DOWNLOAD (norm_text (Some (U "  点击   下载 ")))
  = contains MARK_DOWNLOAD (U "  点击   下载 ").
Proof.
  apply (norm_text_keeps_markers MARK_DOWNLOAD (U "  点击   下载 ")).
  - discriminate.
  - repeat constructor.
Defined.

Section Dates.
Context `{PyRuntime}.

Lemma date_at_shape s d :
  date_at s = Some d -> d = take 10 s /\ length d = 10%nat /\ date_at d = Some d.
Proof.
  unfold date_at.
  destruct s as [|y1 [|y2 [|y3 [|y4 [|h1 [|m1 [|m2 [|h2 [|d1 [|d2 s]]]]]]]]]];
    try done.
  destruct (_ && _) eqn:Hall; [|done].
  intros [= <-]. split; [done|]. split; [done|]. by rewrite Hall.
Qed.

Lemma search_date_cases s :
  match search_date s with
  | Some d =>
      exists pre post,
        s = pre ++ d ++ post
        /\ date_at (d ++ post) = Some d
        /\ forall j, (j < length pre)%nat -> date_at (drop j s) = None
  | None => forall j, date_at (drop j s) = None
  end.
Proof.
  induction s as [|c t IH].
  - simpl. intros j. by rewrite drop_nil.
  - cbn [search_date]. destruct (date_at (c :: t)) as [d|] eqn:Hd.
    + destruct (date_at_shape _ _ Hd) as (Htake & _ & _).
      exists [], (drop 10 (c :: t)).
      assert (Hsplit : d ++ drop 10 (c :: t) = c :: t)
        by (rewrite Htake; apply take_drop).
      rewrite app_nil_l, Hsplit. split; [done|]. split; [done|].
      intros j Hj. simpl in Hj. lia.
    + destruct (search_date t) as [d|].
      * destruct IH as (pre & post & -> & Hat & Hleft).
        exists (c :: pre), post. split; [done|]. split; [done|].
        intros [|j] Hj; [done|]. simpl. apply Hleft. simpl in Hj. lia.
      * intros [|j]; [done|]. simpl. apply IH.
Qed.

End Dates.

(** X5. The date search returns the leftmost match of the pattern: the
    text splits into a part in which no match starts, the date (ten
    characters: four digits, a hyphen, two digits, a hyphen, two digits)
    and a rest; it returns nothing exactly when no match starts anywhere. *)
Theorem search_date_leftmost `{PyRuntime} (s : str) :
  match search_date s with
  | Some d =>
      exists pre post,
        s = pre ++ d ++ post
        /\ length d = 10%nat
        /\ date_at d = Some d
        /\ forall j, (j < length pre)%nat -> date_at (drop j s) = None
  | None => forall j, date_at (drop j s) = None
  end.
Proof.
  pose proof (search_date_cases s) as Hcases.
  destruct (search_date s) as [d|]; [|done].
  destruct Hcases as (pre & post & -> & Hat & Hleft).
  destruct (date_at_shape _ _ Hat) as (_ & Hlen & Hself).
  by exists pre, post.
Qed.

(* ------------------------------------------------------------------------- *)
(** ** What the extracted items look like *)

Section ItemFacts.
Context `{PyRuntime}.

Lemma scan_cand_found cand :
  forall title date_str,
    found_title title -> found_date date_str ->
    found_title (fst (scan_cand cand title date_str))
    /\ found_date (snd (scan_cand cand title date_str)).
Proof.
  induction cand as [|n rest IH]; intros title date_str Ht Hd; [done|].
  cbn [scan_cand]. cbv zeta.
  set (t := norm_text (Some (get_text [] n))).
  set (title' := if negb (truthy title) && title_marker t then Some t else title).
  set (date' := if negb (truthy date_str)
                then match search_date t with
                     | Some d => Some d
                     | None => date_str
                     end
                else date_str).
  assert (Ht' : found_title title').
  { unfold title'. destruct (negb (truthy title) && title_marker t) eqn:Hc; [|done].
    apply andb_prop in Hc as [_ Hm]. right. by exists t. }
  assert (Hd' : found_date date').
  { unfold date'. destruct (negb (truthy date_str)); [|done].
    destruct (search_date t) as [d|] eqn:Hs; [|done]. right. by exists d, t. }
  destruct (truthy title' && truthy date'); [done|]. by apply IH.
Qed.

Lemma scan_ups_found ups :
  forall title date_str,
    found_title title -> found_date date_str ->
    found_title (fst (scan_ups ups title date_str))
    /\ found_date (snd (scan_ups ups title date_str)).
Proof.
  induction ups as [|[up|] rest IH]; intros title date_str Ht Hd; [done| |by apply IH].
  cbn [scan_ups]. cbv zeta.
  destruct (scan_cand_found
              (find_all_limit [H3_TAG; H4_TAG; A_TAG; P_TAG; SPAN_TAG] 8 up)
              title date_str Ht Hd) as [Ht' Hd'].
  destruct (scan_cand _ title date_str) as [title' date']. simpl in Ht', Hd'.
  destruct (truthy title' && truthy date'); [done|]. by apply IH.
Qed.

Lemma first_report_heading_marker hs t :
  first_report_heading hs = Some t -> title_marker t = true.
Proof.
  induction hs as [|h rest IH]; [done|]. cbn [first_report_heading]. cbv zeta.
  destruct (contains MARK_REPORT _) eqn:Hc; [|done].
  intros [= <-]. unfold title_marker. by rewrite Hc.
Qed.

Lemma describe_found soup a :
  found_title (fst (describe soup a)) /\ found_date (snd (describe soup a)).
Proof.
  unfold describe.
  destruct (scan_ups_found
              [Some a; parent a;
               match parent a with Some p => parent p | None => None end]
              None None) as [Ht Hd]; [by left|by left|].
  destruct (scan_ups _ None None) as [title date_str]. simpl in Ht, Hd.
  cbn [fst snd]. split.
  - destruct (negb (truthy title)); [|done].
    destruct (first_report_heading _) as [t|] eqn:Hh; [|done].
    right. exists t. split; [done|]. by eapply first_report_heading_marker.
  - destruct (negb (truthy date_str)); [|done].
    destruct (search_date (near_text a)) as [d|] eqn:Hs; [|done].
    right. by exists d, (near_text a).
Qed.

Lemma search_date_well_formed s d :
  search_date s = Some d -> length d = 10%nat /\ date_at d = Some d.
Proof.
  intros Hs. pose proof (search_date_leftmost s) as Hl. rewrite Hs in Hl.
  destruct Hl as (_ & _ & _ & Hlen & Hat & _). done.
Qed.

Lemma entry_shape soup a u :
  let it := entry soup a u in
  well_titled it /\ well_dated it /\ href it = u.
Proof.
  cbv zeta. unfold entry, well_titled, well_dated.
  destruct (describe_found soup a) as [Ht Hd].
  destruct (describe soup a) as [title date_str]. simpl in *.
  split; [|split; [|done]].
  - destruct Ht as [->|(t & -> & Hm)]; [by left|].
    destruct t as [|c t]; [by left|by right].
  - destruct Hd as [->|(d & s & -> & Hs)]; [by left|].
    destruct d as [|c d]; [by left|]. right.
    exact (search_date_well_formed s _ Hs).
Qed.

(** The first pass only appends entries of download anchors. *)
Lemma anchor_loop_appends soup base anchors :
  forall items seen items' seen',
    anchor_loop soup base anchors items seen = Ok (items', seen') ->
    exists added,
      items' = items ++ added
      /\ Forall (fun it => exists a, a ∈ anchors
                                    /\ resolves_to base a (href it)
                                    /\ it = entry soup a (href it)) added.
Proof.
  induction anchors as [|a rest IH]; intros items seen items' seen' Hrun.
  - simpl in Hrun. inversion Hrun; subst. exists []. by rewrite app_nil_r.
  - assert (Hweaken : forall added : list item,
              Forall (fun it => exists b, b ∈ rest
                                 /\ resolves_to base b (href it)
                                 /\ it = entry soup b (href it)) added ->
              Forall (fun it => exists b, b ∈ a :: rest
                                 /\ resolves_to base b (href it)
                                 /\ it = entry soup b (href it)) added).
    { intros added Hadd. eapply Forall_impl; [exact Hadd|].
      intros it (b & Hb & Hr). exists b. split; [by right|done]. }
    simpl in Hrun.
    destruct (or_empty (get_attr HREF a)) as [|c ref] eqn:Href.
    { apply IH in Hrun as (added & -> & Hadded). exists added. auto. }
    destruct (urljoin base (c :: ref)) as [u|e] eqn:Hu; [|done].
    destruct (decide (u ∈ seen)).
    { apply IH in Hrun as (added & -> & Hadded). exists added. auto. }
    apply IH in Hrun as (added & -> & Hadded).
    exists (entry soup a u :: added). rewrite <- app_assoc. split; [done|].
    apply List.Forall_cons; [|auto].
    destruct (entry_shape soup a u) as (_ & _ & Hhref). cbv zeta in Hhref.
    exists a. rewrite Hhref. split; [by left|]. split; [|done].
    unfold resolves_to. rewrite Href. done.
Qed.

(** The fallback only appends items whose title carries the report marker,
    with the date found in the title and an href from the page. *)
Lemma fallback_loop_appends soup base hs :
  (forall h, h ∈ hs -> h ∈ descendants soup) ->
  forall items items',
    fallback_loop base hs items = Ok items' ->
    exists added,
      items' = items ++ added
      /\ Forall (fun it => contains MARK_REPORT (title it) = true
                           /\ date it = default [] (search_date (title it))
                           /\ well_dated it
                           /\ from_page soup base it) added.
Proof.
  induction hs as [|h rest IH]; intros Hin items items' Hrun.
  - simpl in Hrun. inversion Hrun; subst. exists []. by rewrite app_nil_r.
  - assert (Hrest : forall b, b ∈ rest -> b ∈ descendants soup)
      by (intros b Hb; apply Hin; by right).
    assert (Hh : h ∈ descendants soup) by (apply Hin; by left).
    cbn [fallback_loop] in Hrun. cbv zeta in Hrun.
    set (t := norm_text (Some (get_text [] h))) in *.
    destruct (contains MARK_REPORT t) eqn:Ht; [|by apply IH].
    set (a := if decide (name_of (fst h) = Some A_TAG) then Some h
              else find A_TAG h) in *.
    assert (Ha : forall a', a = Some a' -> a' ∈ find_all [A_TAG] soup).
    { intros a' Ha'. subst a. apply find_all_elem.
      destruct (decide (name_of (fst h) = Some A_TAG)) as [Hn|Hn].
      - inversion Ha'; subst a'. split; [by apply has_name_anchor|done].
      - unfold find in Ha'. apply head_Some_elem_of in Ha'.
        apply find_all_elem in Ha' as [? Ha']. split; [done|].
        unfold descendants in *. by eapply descend_trans. }
    set (target := match a with
                   | Some a0 => if truthy (get_attr HREF a0)
                                then get_attr HREF a0 else None
                   | None => None
                   end) in *.
    assert (Hdate : forall u,
               well_dated (mk_item t (match search_date t with
                                      | Some d => d | None => [] end) u)).
    { intros u. unfold well_dated. simpl.
      destruct (search_date t) as [d|] eqn:Hs; [|by left].
      right. by apply (search_date_well_formed t). }
    destruct target as [ref|] eqn:Htarget.
    + destruct (urljoin base ref) as [u|e] eqn:Hu; [|done].
      apply IH in Hrun as (added & -> & Hadded); [|done].
      eexists (_ :: added). rewrite <- app_assoc. split; [reflexivity|].
      apply List.Forall_cons; [|done].
      split; [done|]. split; [cbn [date title]; by destruct (search_date t)|].
      split; [apply Hdate|].
      right. unfold target in Htarget.
      destruct a as [a0|]; [|done].
      destruct (get_attr HREF a0) as [[|c r]|] eqn:Hget; simpl in Htarget; try done.
      inversion Htarget; subst ref.
      exists a0. split; [by apply Ha|]. unfold resolves_to. rewrite Hget. done.
    + apply IH in Hrun as (added & -> & Hadded); [|done].
      eexists (_ :: added). rewrite <- app_assoc. split; [reflexivity|].
      apply List.Forall_cons; [|done].
      split; [done|]. split; [cbn [date title]; by destruct (search_date t)|].
      split; [apply Hdate|]. by left.
Qed.

Lemma title_marker_of_report t :
  contains MARK_REPORT t = true -> title_marker t = true.
Proof. intros Ht. unfold title_marker. by rewrite Ht. Qed.

Lemma title_marker_nonempty t : title_marker t = true -> t <> [].
Proof. by intros Ht ->. Qed.

Lemma Forall_slice_to {A} (P : A -> Prop) (l : list A) n :
  Forall P l -> Forall P (slice_to l n).
Proof. unfold slice_to. destruct (0 <=? n)%Z; apply Forall_take. Qed.

(** Every item of a result has the three shapes. *)
Lemma extract_items_shapes soup base top_n items :
  extract_items soup base top_n = Ok items ->
  Forall (fun it => well_titled it /\ well_dated it
                    /\ from_page (soup, []) base it) items.
Proof.
  unfold extract_items, primary_pass.
  destruct (anchor_loop _ _ _ _ _) as [[primary seen]|e] eqn:Hloop; [|done].
  apply anchor_loop_appends in Hloop as (added & Hprimary & Hadded).
  simpl in Hprimary. subst added.
  assert (Hshape : Forall (fun it => well_titled it /\ well_dated it
                                     /\ from_page (soup, []) base it) primary).
  { eapply Forall_impl; [exact Hadded|].
    intros it (a & Ha & Hres & Hit).
    destruct (entry_shape (soup, []) a (href it)) as (Ht & Hd & _).
    cbv zeta in Ht, Hd. rewrite <- Hit in Ht, Hd.
    split; [done|]. split; [done|]. right. exists a. split; [|done].
    unfold download_anchors in Ha. rewrite list_elem_of_filter in Ha. tauto. }
  destruct primary as [|it primary].
  - destruct (fallback_loop _ _ _) as [fb|e] eqn:Hfb; [|done].
    apply fallback_loop_appends with (soup := (soup, [])) in Hfb
      as (added & Hfb & Hadded').
    + simpl in Hfb. subst added. intros [= <-].
      apply Forall_slice_to. eapply Forall_impl; [exact Hadded'|].
      intros it (Ht & _ & Hd & Hp). split; [|done].
      right. by apply title_marker_of_report.
    + intros h Hh. by apply find_all_elem in Hh as [_ ?].
  - intros [= <-]. by apply Forall_slice_to.
Qed.

End ItemFacts.

Section CapFacts.
Context `{PyRuntime}.

(** The cap is applied last. *)
Lemma extract_items_slices soup base top_n :
  extract_items soup base top_n =
  match found_items soup base with
  | Ok items => Ok (slice_to items top_n)
  | Raise e => Raise e
  end.
Proof.
  unfold extract_items, found_items.
  destruct (primary_pass (soup, []) base) as [[|it items]|e]; [|done..].
  by destruct (fallback_loop _ _ _).
Qed.

Lemma fallback_loop_nothing base hs :
  Forall (fun h => contains MARK_REPORT (norm_text (Some (get_text [] h)))
                   = false) hs ->
  forall items, fallback_loop base hs items = Ok items.
Proof.
  induction 1 as [|h rest Hh _ IH]; intros items; [done|].
  cbn [fallback_loop]. cbv zeta. by rewrite Hh.
Qed.

Lemma anchor_loop_no_href soup base anchors :
  Forall (fun a => or_empty (get_attr HREF a) = []) anchors ->
  forall items seen, anchor_loop soup base anchors items seen = Ok (items, seen).
Proof.
  induction 1 as [|a rest Ha _ IH]; intros items seen; [done|].
  simpl. by rewrite Ha.
Qed.

End CapFacts.

(** X6. Every item that [extract_items] returns has a title that is not
    empty: the sentinel, or a text with one of the title markers. *)
Theorem extract_items_titles `{PyRuntime} (soup : node) (base_url : str)
    (top_n : Z) (items : list item) :
  extract_items soup base_url top_n = Ok items ->
  Forall (fun it => title it <> [] /\ well_titled it) items.
Proof.
  intros Hrun. eapply Forall_impl; [by eapply extract_items_shapes|].
  intros it (Ht & _ & _). split; [|done].
  destruct Ht as [->|Hm]; [done|]. by apply title_marker_nonempty.
Qed.

Lemma extract_items_titles_witness :
  Forall (fun it => title it <> [] /\ well_titled it)
         [report_2024q3; report_2024h1; report_2024q1].
Proof.
  apply (extract_items_titles doc_three_reports BASE_URL 20).
  vm_compute. reflexivity.
Defined.

(** X7. Every item that [extract_items] returns has a date that is empty
    or a ten-character match of the date pattern. *)
Theorem extract_items_dates `{PyRuntime} (soup : node) (base_url : str)
    (top_n : Z) (items : list item) :
  extract_items soup base_url top_n = Ok items ->
  Forall well_dated items.
Proof.
  intros Hrun. eapply Forall_impl; [by eapply extract_items_shapes|].
  by intros it (_ & Hd & _).
Qed.

Lemma extract_items_dates_witness :
  Forall well_dated [report_2024q3; report_2024h1; report_2024q1].
Proof.
  apply (extract_items_dates doc_three_reports BASE_URL 20).
  vm_compute. reflexivity.
Defined.

(** X8. Every href that [extract_items] returns is the base URL or what
    [urljoin] made of the non-empty [href] attribute of an anchor of the
    document: no link is invented. *)
Theorem extract_items_hrefs_from_page `{PyRuntime} (soup : node)
    (base_url : str) (top_n : Z) (items : list item) :
  extract_items soup base_url top_n = Ok items ->
  Forall (from_page (soup, []) base_url) items.
Proof.
  intros Hrun. eapply Forall_impl; [by eapply extract_items_shapes|].
  by intros it (_ & _ & Hp).
Qed.

Lemma extract_items_hrefs_from_page_witness :
  Forall (from_page (doc_three_reports, []) BASE_URL)
         [report_2024q3; report_2024h1; report_2024q1].
Proof.
  apply (extract_items_hrefs_from_page doc_three_reports BASE_URL 20).
  vm_compute. reflexivity.
Defined.

(** X9. When the first pass accepts nothing, every item comes from the
    fallback: its title carries the report marker and its date is the
    leftmost date of that title, or empty when the title has none. *)
Theorem fallback_items_read_from_title `{PyRuntime} (soup : node)
    (base_url : str) (top_n : Z) (items : list item) :
  primary_pass (soup, []) base_url = Ok [] ->
  extract_items soup base_url top_n = Ok items ->
  Forall (fun it => contains MARK_REPORT (title it) = true
                    /\ date it = default [] (search_date (title it))) items.
Proof.
  intros Hprimary. unfold extract_items. rewrite Hprimary.
  destruct (fallback_loop _ _ _) as [fb|e] eqn:Hfb; [|done].
  intros [= <-]. apply Forall_slice_to.
  apply fallback_loop_appends with (soup := (soup, [])) in Hfb
    as (added & Hfb & Hadded).
  - simpl in Hfb. subst added. eapply Forall_impl; [exact Hadded|].
    by intros it (Ht & Hd & _).
  - intros h Hh. by apply find_all_elem in Hh as [_ ?].
Qed.

Lemma fallback_items_read_from_title_witness :
  Forall (fun it => contains MARK_REPORT (title it) = true
                    /\ date it = default [] (search_date (title it)))
         [report_2023_annual; report_2023_annual].
Proof.
  apply (fallback_items_read_from_title doc_heading_link BASE_URL 20).
  - vm_compute. reflexivity.
  - vm_compute. reflexivity.
Defined.

(** X10. When no download anchor has an [href] and no heading or anchor
    carries the report marker, [extract_items] returns the empty list, for
    every base URL and cap, whatever [urljoin] does. *)
Theorem extract_items_nothing_to_find `{PyRuntime} (soup : node)
    (base_url : str) (top_n : Z) :
  Forall (fun a => or_empty (get_attr HREF a) = [])
         (download_anchors (soup, [])) ->
  Forall (fun h => contains MARK_REPORT (norm_text (Some (get_text [] h)))
                   = false)
         (find_all [H3_TAG; H4_TAG; A_TAG] (soup, [])) ->
  extract_items soup base_url top_n = Ok [].
Proof.
  intros Hanchors Hheadings. unfold extract_items, primary_pass.
  rewrite anchor_loop_no_href by done.
  rewrite fallback_loop_nothing by done.
  unfold slice_to. destruct (0 <=? top_n)%Z; by rewrite take_nil.
Qed.

Lemma extract_items_nothing_to_find_witness :
  extract_items doc_nothing_to_find BASE_URL 20 = Ok [].
Proof.
  apply (extract_items_nothing_to_find doc_nothing_to_find BASE_URL 20).
  - vm_compute. repeat constructor.
  - vm_compute. repeat constructor.
Defined.

(** X11. The cap only cuts: for caps [0 <= n <= m], extraction with cap
    [n] fails exactly when extraction with cap [m] fails, with the same
    exception, and otherwise returns the first [n] items of what cap [m]
    returns. *)
Theorem extract_items_cap_prefix `{PyRuntime} (soup : node) (base_url : str)
    (n m : Z) :
  (0 <= n <= m)%Z ->
  extract_items soup base_url n =
  match extract_items soup base_url m with
  | Ok items => Ok (take (Z.to_nat n) items)
  | Raise e => Raise e
  end.
Proof.
  intros Hnm. rewrite !extract_items_slices.
  destruct (found_items soup base_url) as [items|e]; [|done].
  unfold slice_to.
  destruct (Z.leb_spec 0 n); [|lia]. destruct (Z.leb_spec 0 m); [|lia].
  rewrite take_take. f_equal. f_equal. lia.
Qed.

Lemma extract_items_cap_prefix_witness :
  extract_items doc_three_reports BASE_URL 1 =
  match extract_items doc_three_reports BASE_URL 2 with
  | Ok items => Ok (take (Z.to_nat 1) items)
  | Raise e => Raise e
  end.
Proof.
  apply (extract_items_cap_prefix doc_three_reports BASE_URL 1 2). lia.
Defined.

(** X12. A negative cap does not fail: it drops that many items from the
    end of what an ample cap returns. *)
Theorem extract_items_negative_cap `{PyRuntime} (soup : node) (base_url : str)
    (n m : Z) (items : list item) :
  (n < 0)%Z ->
  (Z.of_nat (length items) < m)%Z ->
  extract_items soup base_url m = Ok items ->
  extract_items soup base_url n
  = Ok (take (length items - Z.to_nat (- n)) items).
Proof.
  intros Hn Hm. rewrite !extract_items_slices.
  destruct (found_items soup base_url) as [full|e]; [|done].
  unfold slice_to.
  destruct (Z.leb_spec 0 m); [|lia]. destruct (Z.leb_spec 0 n); [lia|].
  intros Heq%Ok_inj.
  assert (Hfull : full = items).
  { rewrite <- Heq. symmetry. apply take_ge.
    rewrite <- Heq, length_take in Hm. lia. }
  by rewrite Hfull.
Qed.

Lemma extract_items_negative_cap_witness :
  extract_items doc_three_reports BASE_URL (-1)
  = Ok (take (length [report_2024q3; report_2024h1; report_2024q1]
              - Z.to_nat (- -1))
             [report_2024q3; report_2024h1; report_2024q1]).
Proof.
  apply (extract_items_negative_cap doc_three_reports BASE_URL (-1) 20).
  - lia.
  - simpl. lia.
  - vm_compute. reflexivity.
Defined.

(* ------------------------------------------------------------------------- *)
(** ** When signing fails, and what the message says *)

Section SigningFacts.
Import Codec.

Lemma encode_char_scalar c :
  match encode_char (Z.of_N c) with
  | Ok _ => is_scalar c
  | Raise e => e = UnicodeEncodeError /\ ~ is_scalar c
  end.
Proof.
  unfold encode_char, is_scalar.
  repeat match goal with
         | |- context [(?a <? ?b)%Z] => destruct (Z.ltb_spec a b)
         | |- context [(?a <=? ?b)%Z] => destruct (Z.leb_spec a b)
         | _ => progress simpl
         end; try lia; split; try done; lia.
Qed.

Lemma utf8_encode_scalar s :
  match utf8_encode s with
  | Ok _ => Forall is_scalar s
  | Raise e => e = UnicodeEncodeError /\ ~ Forall is_scalar s
  end.
Proof.
  induction s as [|c s IH]; [constructor|].
  cbn [utf8_encode]. pose proof (encode_char_scalar c) as Hc.
  destruct (encode_char (Z.of_N c)) as [b|e].
  - destruct (utf8_encode s) as [bs|e'].
    + by constructor.
    + destruct IH as [-> Hs]. split; [done|].
      intros Hall. apply Hs. by inversion Hall.
  - destruct Hc as [-> Hc]. split; [done|].
    intros Hall. apply Hc. by inversion Hall.
Qed.

Lemma uint_chars_scalar d : Forall is_scalar (uint_chars d).
Proof.
  induction d; simpl; constructor; try done; left; reflexivity.
Qed.

Lemma str_of_int_scalar z : Forall is_scalar (str_of_int z).
Proof.
  unfold str_of_int. destruct (Z.to_int z).
  - apply uint_chars_scalar.
  - constructor; [left; reflexivity|apply uint_chars_scalar].
Qed.

Lemma feishu_sign_cases ts secret :
  match feishu_sign ts secret with
  | Ok sig =>
      Forall is_scalar ts /\ Forall is_scalar secret /\ length sig = 44%nat
  | Raise e =>
      e = UnicodeEncodeError
      /\ ~ (Forall is_scalar ts /\ Forall is_scalar secret)
  end.
Proof.
  destruct (feishu_sign ts secret) as [sig|e] eqn:Hsign.
  - destruct (feishu_sign_inv _ _ _ Hsign) as (key & msg & Hkey & Hmsg & Hsig).
    assert (Hlen : length sig = 44%nat).
    { rewrite Hsig. unfold decode_ascii.
      by rewrite length_map, b64encode_length, hmac_sha256_length. }
    pose proof (utf8_encode_scalar secret) as Hs. rewrite Hkey in Hs.
    pose proof (utf8_encode_scalar (ts ++ [NEWLINE] ++ secret)) as Hm.
    rewrite Hmsg in Hm. apply Forall_app in Hm as [Hts _]. done.
  - unfold feishu_sign in Hsign.
    pose proof (utf8_encode_scalar (ts ++ [NEWLINE] ++ secret)) as Hm.
    destruct (utf8_encode (ts ++ [NEWLINE] ++ secret)) as [msg|e1].
    + pose proof (utf8_encode_scalar secret) as Hs.
      destruct (utf8_encode secret) as [key|e2]; [discriminate Hsign|].
      apply (f_equal (fun r => match r with Raise x => x | Ok _ => e end))
        in Hsign. simpl in Hsign. subst e2.
      destruct Hs as [-> Hs]. split; [done|]. by intros [_ ?].
    + apply (f_equal (fun r => match r with Raise x => x | Ok _ => e end))
        in Hsign. simpl in Hsign. subst e1.
      destruct Hm as [-> Hm]. split; [done|]. intros [Hts Hsec]. apply Hm.
      apply Forall_app. split; [done|]. apply Forall_app. split; [|done].
      constructor; [left; reflexivity|constructor].
Qed.

End SigningFacts.

(** X13. [feishu_sign] returns a signature, of forty-four characters,
    exactly when the timestamp and the secret contain no surrogate code
    point; otherwise it raises [UnicodeEncodeError]. *)
Theorem feishu_sign_fails_on_surrogates (ts secret : str) :
  match feishu_sign ts secret with
  | Ok sig =>
      Forall is_scalar ts /\ Forall is_scalar secret /\ length sig = 44%nat
  | Raise e =>
      e = UnicodeEncodeError
      /\ ~ (Forall is_scalar ts /\ Forall is_scalar secret)
  end.
Proof. apply feishu_sign_cases. Qed.

(** X14. The timestamp and the signature are attached together or not at
    all: neither without a secret (blank counts as none), both with one.
    Signing fails only because the secret cannot be encoded, never because
    of the clock, and then with [UnicodeEncodeError]. *)
Theorem signing_fields (env : environment) :
  let secret := strip (getenv (FEISHU_SECRET env)) in
  match signing env with
  | Ok (ts, sg) =>
      (secret = [] /\ ts = None /\ sg = None)
      \/ (secret <> [] /\ Forall is_scalar secret
          /\ ts = Some (str_of_int (clock env))
          /\ exists s, sg = Some s /\ length s = 44%nat)
  | Raise e => e = UnicodeEncodeError /\ secret <> [] /\ ~ Forall is_scalar secret
  end.
Proof.
  cbv zeta. unfold signing.
  destruct (strip (getenv (FEISHU_SECRET env))) as [|c secret] eqn:Hsecret;
    [by left|].
  pose proof (feishu_sign_cases (str_of_int (clock env)) (c :: secret)) as Hs.
  destruct (feishu_sign _ (c :: secret)) as [s|e].
  - destruct Hs as (_ & Hsec & Hlen). right.
    split; [done|]. split; [done|]. split; [done|]. by exists s.
  - destruct Hs as [-> Hs]. split; [done|]. split; [done|].
    intros Hsec. apply Hs. split; [apply str_of_int_scalar|done].
Qed.

Section DigestFacts.

Lemma contains_middle needle a b :
  contains needle (a ++ needle ++ b) = true.
Proof. apply contains_substring. by exists a, b. Qed.

Lemma contains_inside needle a x b :
  contains needle x = true -> contains needle (a ++ x ++ b) = true.
Proof.
  rewrite !contains_substring. intros (pre & post & ->).
  exists (a ++ pre), (post ++ b). by rewrite <- !app_assoc.
Qed.

Lemma join_middle sep xs : forall x ys,
  exists p q, join sep (xs ++ x :: ys) = p ++ x ++ q.
Proof.
  induction xs as [|y xs IH]; intros x ys.
  - destruct ys as [|z ys].
    + exists [], []. simpl. by rewrite app_nil_r.
    + exists [], (sep ++ join sep (z :: ys)). simpl app.
      by rewrite join_cons by done.
  - destruct (IH x ys) as (p & q & Heq).
    exists (y ++ sep ++ p), q. simpl app.
    rewrite join_cons by (by destruct xs). rewrite Heq.
    by rewrite <- !app_assoc.
Qed.

Lemma digest_has_line it items :
  it ∈ items -> contains (digest_line it) (digest items) = true.
Proof.
  intros Hin. apply list_elem_of_split in Hin as (l1 & l2 & ->).
  unfold digest. rewrite map_app. simpl map.
  destruct (join_middle [NEWLINE] (map digest_line l1) (digest_line it)
              (map digest_line l2)) as (p & q & ->).
  apply contains_inside. apply contains_substring. by exists p, q.
Qed.

Lemma contains_trans needle x y :
  contains needle x = true -> contains x y = true -> contains needle y = true.
Proof.
  rewrite !contains_substring. intros (p1 & q1 & ->) (p2 & q2 & ->).
  exists (p2 ++ p1), (q1 ++ q2). by rewrite <- !app_assoc.
Qed.

End DigestFacts.

(** X15. The text of the message names every item it is sent for: the
    title, the date and the href of each item occur in it, and so do the
    source label and the source URL, whatever the items. *)
Theorem digest_names_every_item (items : list item) :
  contains SOURCE_NAME (digest items) = true
  /\ contains BASE_URL (digest items) = true
  /\ forall it, it ∈ items ->
       contains (title it) (digest items) = true
       /\ contains (date it) (digest items) = true
       /\ contains (href it) (digest items) = true.
Proof.
  split; [|split].
  - unfold digest. apply contains_substring.
    exists [], ((DIGEST_HEAD ++ [NEWLINE])
                ++ join [NEWLINE] (map digest_line items)
                ++ ([NEWLINE] ++ DIGEST_SOURCE ++ BASE_URL)).
    rewrite app_nil_l. by rewrite <- !app_assoc.
  - unfold digest. apply contains_substring.
    exists ((SOURCE_NAME ++ DIGEST_HEAD ++ [NEWLINE])
            ++ join [NEWLINE] (map digest_line items)
            ++ [NEWLINE] ++ DIGEST_SOURCE), [].
    rewrite app_nil_r. by rewrite <- !app_assoc.
  - intros it Hin. pose proof (digest_has_line it items Hin) as Hline.
    repeat split; (eapply contains_trans; [|exact Hline]);
      unfold digest_line; apply contains_substring.
    + by exists [0x2D; SPACE],
        ([0xFF08] ++ date it ++ [0xFF09] ++ [NEWLINE; SPACE; SPACE] ++ href it).
    + exists ([0x2D; SPACE] ++ title it ++ [0xFF08]),
        ([0xFF09] ++ [NEWLINE; SPACE; SPACE] ++ href it).
      by rewrite <- !app_assoc.
    + exists ([0x2D; SPACE] ++ title it ++ [0xFF08] ++ date it ++ [0xFF09]
              ++ [NEWLINE; SPACE; SPACE]), [].
      rewrite app_nil_r. by rewrite <- !app_assoc.
Qed.

Section WebhookFacts.

Arguments is_space : simpl never.

Lemma lstrip_idempotent s : lstrip (lstrip s) = lstrip s.
Proof.
  induction s as [|c t IH]; [done|]. simpl.
  destruct (is_space c) eqn:Hc; [done|]. simpl. by rewrite Hc.
Qed.

Lemma rstrip_idempotent s : rstrip (rstrip s) = rstrip s.
Proof. unfold rstrip. by rewrite rev_involutive, lstrip_idempotent. Qed.

Lemma lstrip_head s :
  lstrip s = [] \/ exists c t, lstrip s = c :: t /\ is_space c = false.
Proof.
  induction s as [|c t IH]; [by left|]. simpl.
  destruct (is_space c) eqn:Hc; [done|]. right. by exists c, t.
Qed.

(** A stripped string has no whitespace at either end. *)
Lemma strip_stripped s :
  lstrip (strip s) = strip s /\ rstrip (strip s) = strip s.
Proof.
  unfold strip. split; [|apply rstrip_idempotent].
  destruct (lstrip_head s) as [->|(c & t & -> & Hc)]; [done|].
  rewrite rstrip_cons, Hc. simpl. by rewrite Hc.
Qed.

Lemma strip_all_space s : all_space s = true -> strip s = [].
Proof. intros Hs. unfold strip. by rewrite lstrip_all_space. Qed.

End WebhookFacts.

(** X16. A webhook that is unset, empty or made of whitespace only is no
    webhook: [notify_feishu] returns at once and sends nothing. When a
    request is sent, it goes to the webhook without the whitespace around
    it. *)
Theorem notify_feishu_blank_webhook (env : environment) (items : list item)
    (w : world) :
  (all_space (getenv (FEISHU_WEBHOOK_URL env)) = true ->
   notify_feishu env items w
   = (Ok tt, mk_world (state_file w) (trace w ++ [EnterNotify items])))
  /\ (forall url body,
        posts (trace (snd (notify_feishu env items w)))
        = posts (trace w) ++ [(url, body)] ->
        url = strip (getenv (FEISHU_WEBHOOK_URL env))
        /\ url <> [] /\ lstrip url = url /\ rstrip url = url).
Proof.
  split.
  - intros Hblank. rewrite notify_feishu_run, strip_all_space by done. done.
  - intros url body. rewrite notify_feishu_run. cbv zeta.
    destruct (strip_stripped (getenv (FEISHU_WEBHOOK_URL env))) as [Hl Hr].
    destruct (strip (getenv (FEISHU_WEBHOOK_URL env))) as [|c u] eqn:Hurl.
    + simpl. rewrite posts_app. simpl. rewrite app_nil_r.
      intros Heq. apply (f_equal length) in Heq.
      rewrite length_app in Heq. simpl in Heq. lia.
    + destruct (signing env) as [[ts sg]|e]; simpl.
      * rewrite !posts_app. simpl. rewrite app_nil_r.
        intros Heq%app_inv_head. by inversion Heq; subst.
      * rewrite posts_app. simpl. rewrite app_nil_r.
        intros Heq. apply (f_equal length) in Heq.
        rewrite length_app in Heq. simpl in Heq. lia.
Qed.

(** X17. A call of [notify_feishu] never touches the state file and never
    writes a state; it only appends to the trace: its own entry, and at
    most one request. It fails only when the signing or the request
    fails. *)
Theorem notify_feishu_only_sends (env : environment) (items : list item)
    (w : world) :
  let w' := snd (notify_feishu env items w) in
  state_file w' = state_file w
  /\ saves (trace w') = saves (trace w)
  /\ notifications (trace w') = notifications (trace w) ++ [items]
  /\ (exists sent, posts (trace w') = posts (trace w) ++ sent
                   /\ (length sent <= 1)%nat)
  /\ (forall e, fst (notify_feishu env items w) = Raise e ->
        signing env = Raise e
        \/ exists url body, respond env url body = Raise e
                            /\ posts (trace w') = posts (trace w) ++ [(url, body)]).
Proof.
  cbv zeta.
  destruct (notify_feishu env items w) as [r w'] eqn:Hrun.
  destruct (notify_feishu_frame _ _ _ _ _ Hrun) as (Hf & Hs & Hn & Hp).
  cbn [fst snd]. split; [done|]. split; [done|]. split; [done|]. split; [done|].
  intros e ->. rewrite notify_feishu_run in Hrun. cbv zeta in Hrun.
  destruct (strip (getenv (FEISHU_WEBHOOK_URL env))) as [|c u]; [done|].
  destruct (signing env) as [[ts sg]|e'].
  - injection Hrun as Hr Hw. subst w'. right. eexists _, _.
    split; [exact Hr|].
    simpl. rewrite !posts_app. simpl. by rewrite app_nil_r.
  - injection Hrun as Hr Hw. left. by rewrite Hr.
Qed.

(* ------------------------------------------------------------------------- *)
(** ** More on the orchestrator *)

Section RunFacts.
Context `{PyRuntime}.

Lemma new_items_nil (seen : gset str) (items : list item) :
  new_items_of seen items = [] <-> forall it, it ∈ items -> href it ∈ seen.
Proof.
  unfold new_items_of. induction items as [|it items IH]; simpl.
  - split; [by intros _ it ?%elem_of_nil|done].
  - rewrite filter_cons. destruct (decide (href it ∉ seen)) as [Hnew|Hold].
    + split; [done|]. intros Hall. exfalso. apply Hnew, Hall. by left.
    + rewrite IH. split.
      * intros Hall it' [->|Hin]%elem_of_cons; [|by apply Hall].
        by apply dec_stable.
      * intros Hall it' Hin. apply Hall. by right.
Qed.

Lemma new_items_are_new (seen : gset str) (items : list item) :
  Forall (fun it => (href it ∉ seen) /\ (it ∈ items)) (new_items_of seen items).
Proof.
  apply Forall_forall. intros it Hin. unfold new_items_of in Hin.
  by rewrite list_elem_of_filter in Hin.
Qed.

(** A run that finds nothing new only says so. *)
Lemma run_nothing_new env file soup items :
  FORCE_NOTIFY env = false ->
  page env = Ok soup ->
  extract_items soup BASE_URL (TOP_N env) = Ok items ->
  ~ (seen_of (loaded file) = ∅ /\ items <> []) ->
  new_items_of (seen_of (loaded file)) items = [] ->
  run env file = (Ok tt, mk_world file [Print NoNewItems]).
Proof.
  intros Hforce Hpage Hitems Hsteady Hnew.
  rewrite run_unfold, Hpage, Hitems, Hforce. cbv zeta. rewrite Hnew.
  rewrite andb_true_r.
  destruct (bool_decide (seen_of (loaded file) = ∅)) eqn:Hs; [|done].
  destruct (bool_decide (items <> [])) eqn:Hi; [|done].
  exfalso. apply Hsteady.
  by apply bool_decide_eq_true in Hs; apply bool_decide_eq_true in Hi.
Qed.

(** The seven ways a run can go. *)
Lemma run_cases env file :
  let w0 := mk_world file [] in
  let seen := seen_of (loaded file) in
  (exists e, run env file = (Raise e, w0)
             /\ (page env = Raise e
                 \/ exists soup, page env = Ok soup
                      /\ extract_items soup BASE_URL (TOP_N env) = Raise e))
  \/ exists soup items,
       page env = Ok soup
       /\ extract_items soup BASE_URL (TOP_N env) = Ok items
       /\ ((FORCE_NOTIFY env = false /\ seen = ∅ /\ items <> []
            /\ run env file =
               (Ok tt,
                let st := <[ SEEN_HREFS := hrefs items ]> (loaded file) in
                mk_world (Some st) [Save st; Print Initialized]))
           \/ (FORCE_NOTIFY env = true /\ items = []
               /\ run env file = (Ok tt, mk_world file [Print NoItemsForForce]))
           \/ (FORCE_NOTIFY env = true
               /\ exists it rest attempt,
                    items = it :: rest
                    /\ run env file
                       = (Ok tt, mk_world file (attempt ++ [Print ForceSent]))
                    /\ notifications attempt = [[it]]
                    /\ saves attempt = []
                    /\ (length (posts attempt) <= 1)%nat)
           \/ (FORCE_NOTIFY env = false
               /\ ~ (seen = ∅ /\ items <> [])
               /\ new_items_of seen items = []
               /\ run env file = (Ok tt, mk_world file [Print NoNewItems]))
           \/ (FORCE_NOTIFY env = false
               /\ ~ (seen = ∅ /\ items <> [])
               /\ new_items_of seen items <> []
               /\ exists st' attempt,
                    run env file
                    = (Ok tt,
                       mk_world (Some st')
                         (attempt ++
                          [Save st';
                           Print (Notified
                                    (length (new_items_of seen items)))]))
                    /\ st' = <[ SEEN_HREFS :=
                                 list_of_set
                                   (seen ∪ list_to_set
                                             (hrefs (new_items_of seen items))) ]>
                               (loaded file)
                    /\ notifications attempt = [new_items_of seen items]
                    /\ saves attempt = []
                    /\ (length (posts attempt) <= 1)%nat)).
Proof.
  cbv zeta.
  destruct (page env) as [soup|e] eqn:Hpage.
  2:{ left. exists e. split; [|by left]. by rewrite run_unfold, Hpage. }
  destruct (extract_items soup BASE_URL (TOP_N env)) as [items|e] eqn:Hitems.
  2:{ left. exists e. split; [|right; by exists soup].
      by rewrite run_unfold, Hpage, Hitems. }
  right. exists soup, items. split; [done|]. split; [done|].
  destruct (FORCE_NOTIFY env) eqn:Hforce.
  - right. destruct items as [|it rest].
    + left. split; [done|]. split; [done|].
      rewrite run_unfold, Hpage, Hitems, Hforce. cbv zeta.
      by rewrite andb_false_r.
    + right. left. split; [done|]. exists it, rest.
      rewrite run_unfold, Hpage, Hitems, Hforce. cbv zeta.
      rewrite andb_false_r. unfold mbind, M_bind.
      destruct (guarded_notify env [it] (mk_world file []))
        as (w' & -> & Hf & Hs & Hn & sent & Hp & Hlen).
      exists (trace w'). unfold print, emit. simpl in *. rewrite Hf.
      split; [done|]. split; [done|]. split; [done|]. by rewrite Hp.
  - destruct (decide (seen_of (loaded file) = ∅ /\ items <> [])) as [[Hs Hi]|Hsteady].
    + left. split; [done|]. split; [done|]. split; [done|].
      rewrite run_unfold, Hpage, Hitems, Hforce. cbv zeta.
      rewrite !bool_decide_eq_true_2 by done. done.
    + right. right. right.
      destruct (new_items_of (seen_of (loaded file)) items) as [|it rest] eqn:Hnew.
      * left. split; [done|]. split; [done|]. split; [done|].
        by apply (run_nothing_new env file soup items).
      * right. split; [done|]. split; [done|]. split; [done|].
        rewrite <- Hnew.
        assert (Hseen : seen_of (loaded file) <> ∅).
        { intros Hempty. apply Hsteady. split; [done|].
          intros ->. discriminate Hnew. }
        rewrite run_unfold, Hpage, Hitems, Hforce. cbv zeta.
        rewrite (bool_decide_eq_false_2 (seen_of (loaded file) = ∅)) by done.
        simpl andb. cbv iota. rewrite Hnew, <- Hnew.
        unfold mbind, M_bind.
        destruct (guarded_notify env (new_items_of (seen_of (loaded file)) items)
                    (mk_world file []))
          as (w' & -> & Hf & Hs & Hn & sent & Hp & Hlen).
        unfold save_state, print, emit. simpl. rewrite <- app_assoc. simpl.
        eexists _, (trace w'). split; [reflexivity|].
        simpl in *. split; [done|]. split; [done|]. split; [done|].
        by rewrite Hp.
Qed.

End RunFacts.

(* ------------------------------------------------------------------------- *)
(** ** The outcome of the request and the outcome of the run *)

Section RequestOutcome.
Context `{PyRuntime}.

(** The notifier under its guard, for two outcomes of the request: the
    same call, the same state file, nothing written. *)
Lemma guarded_notify_any_outcome env outcome items w :
  let handler := fun e => print (NotifyFailed e) in
  exists w1 w2,
    try_except (notify_feishu env items) handler w = (Ok tt, w1)
    /\ try_except (notify_feishu (with_respond env outcome) items) handler w
       = (Ok tt, w2)
    /\ state_file w1 = state_file w /\ state_file w2 = state_file w
    /\ saves (trace w1) = saves (trace w)
    /\ saves (trace w2) = saves (trace w)
    /\ notifications (trace w1) = notifications (trace w) ++ [items]
    /\ notifications (trace w2) = notifications (trace w) ++ [items].
Proof.
  cbv zeta.
  destruct (guarded_notify env items w) as (w1 & Hw1 & Hf1 & Hs1 & Hn1 & _).
  destruct (guarded_notify (with_respond env outcome) items w)
    as (w2 & Hw2 & Hf2 & Hs2 & Hn2 & _).
  by exists w1, w2.
Qed.

End RequestOutcome.

(** X18. For a state that has loaded, the outcome of the request never
    decides the run. With any other outcome of the request, the run ends
    the same way, leaves the same state file, writes the same states and
    has called the notifier with the same items: an exception of the
    notifier is caught on both paths (lines 138-141 and 151-154). And when
    the fetch or the extraction raises, the run ends with that exception
    and has done nothing. *)
Theorem request_outcome_never_decides_run `{PyRuntime} (env : environment)
    (file : option state) (outcome : str -> payload -> result unit) :
  let other := run (with_respond env outcome) file in
  let this := run env file in
  fst other = fst this
  /\ state_file (snd other) = state_file (snd this)
  /\ saves (trace (snd other)) = saves (trace (snd this))
  /\ notifications (trace (snd other)) = notifications (trace (snd this))
  /\ (forall e,
        page env = Raise e
        \/ (exists soup, page env = Ok soup
              /\ extract_items soup BASE_URL (TOP_N env) = Raise e) ->
        this = (Raise e, mk_world file [])).
Proof.
  cbv zeta.
  assert (Hfail : forall e,
             page env = Raise e
             \/ (exists soup, page env = Ok soup
                   /\ extract_items soup BASE_URL (TOP_N env) = Raise e) ->
             run env file = (Raise e, mk_world file [])).
  { intros e [Hp|(soup & Hp & Hx)]; rewrite run_unfold, Hp; [done|].
    by rewrite Hx. }
  repeat (split; [|try exact Hfail]); rewrite !run_unfold;
    change (page (with_respond env outcome)) with (page env);
    change (TOP_N (with_respond env outcome)) with (TOP_N env);
    change (FORCE_NOTIFY (with_respond env outcome)) with (FORCE_NOTIFY env);
    (destruct (page env) as [soup|e0]; [|done]); cbv beta iota;
    (destruct (extract_items soup BASE_URL (TOP_N env)) as [items|e0]; [|done]);
    cbv beta iota zeta;
    (destruct (bool_decide (seen_of (loaded file) = ∅)
               && bool_decide (items <> []) && negb (FORCE_NOTIFY env));
     [done|]);
    (destruct (FORCE_NOTIFY env);
     [destruct items as [|it rest]; [done|]
     |destruct (new_items_of (seen_of (loaded file)) items) as [|it rest];
      [done|]]);
    unfold mbind, M_bind;
    match goal with
    | |- context [try_except (notify_feishu env ?l) _ ?w] =>
        destruct (guarded_notify_any_outcome env outcome l w)
          as (w1 & w2 & -> & -> & Hf1 & Hf2 & Hs1 & Hs2 & Hn1 & Hn2)
    end;
    unfold save_state, print, emit; simpl;
    rewrite ?saves_app, ?notifications_app, ?Hs1, ?Hs2, ?Hn1, ?Hn2, ?Hf1, ?Hf2;
    done.
Qed.

(** X19. Without force, when every extracted href is already seen (or
    nothing was extracted), the run prints that there is nothing new and
    does no more: no call of the notifier, no request, no write. *)
Theorem nothing_new_nothing_done `{PyRuntime} (env : environment)
    (file : option state) (soup : node) (items : list item) :
  FORCE_NOTIFY env = false ->
  page env = Ok soup ->
  extract_items soup BASE_URL (TOP_N env) = Ok items ->
  ~ (seen_of (loaded file) = ∅ /\ items <> []) ->
  (forall it, it ∈ items -> href it ∈ seen_of (loaded file)) ->
  run env file = (Ok tt, mk_world file [Print NoNewItems]).
Proof.
  intros Hforce Hpage Hitems Hsteady Hseen.
  apply (run_nothing_new env file soup items); try done.
  by apply new_items_nil.
Qed.

Lemma nothing_new_nothing_done_witness :
  run (sample_env false) (Some sample_state_current)
  = (Ok tt, mk_world (Some sample_state_current) [Print NoNewItems]).
Proof.
  apply (nothing_new_nothing_done (sample_env false) (Some sample_state_current)
           doc_two_downloads [report_2024q3]).
  - reflexivity.
  - reflexivity.
  - vm_compute. reflexivity.
  - intros [Hempty _]. vm_compute in Hempty. discriminate.
  - intros it ->%list_elem_of_singleton. vm_compute. tauto.
Defined.

(** X20. Running again changes nothing: after a run without force that
    succeeded, a second run in the same environment over the state the
    first one left finds nothing new, notifies nobody and leaves the state
    as it is. *)
Theorem second_run_is_quiet `{PyRuntime} (env : environment)
    (file : option state) :
  FORCE_NOTIFY env = false ->
  fst (run env file) = Ok tt ->
  let file' := state_file (snd (run env file)) in
  run env file' = (Ok tt, mk_world file' [Print NoNewItems]).
Proof.
  intros Hforce Hok. cbv zeta.
  destruct (run_cases env file)
    as [(e' & Hrun & _)|(soup & items & Hpage & Hitems & Hcases)];
    cbv zeta in *.
  { rewrite Hrun in Hok. done. }
  destruct Hcases as [(_ & Hseen & Hne & Hrun)
                     |[(Hf & _)|[(Hf & _)
                     |[(_ & Hsteady & Hnew & Hrun)
                      |(_ & Hsteady & Hnew & st' & attempt & Hrun & Hst & _)]]]];
    try congruence.
  - rewrite Hrun. cbn [snd state_file].
    apply (run_nothing_new env _ soup items); try done.
    + intros [Hempty _]. cbn [loaded] in Hempty.
      rewrite seen_of_insert in Hempty.
      destruct items as [|it items]; [done|].
      apply (f_equal (fun X : gset str => bool_decide (href it ∈ X))) in Hempty.
      rewrite bool_decide_eq_true_2 in Hempty by set_solver.
      by rewrite bool_decide_eq_false_2 in Hempty by set_solver.
    + apply new_items_nil. intros it Hin. cbn [loaded].
      rewrite seen_of_insert, elem_of_list_to_set. unfold hrefs.
      apply list_elem_of_In, in_map, list_elem_of_In, Hin.
  - rewrite Hrun. cbn [snd state_file]. by rewrite Hrun.
  - rewrite Hrun. cbn [snd state_file]. subst st'.
    assert (Hin : forall it, it ∈ items ->
              href it ∈ seen_of (loaded file)
                        ∪ list_to_set
                            (hrefs (new_items_of (seen_of (loaded file)) items))).
    { intros it Hit.
      destruct (decide (href it ∈ seen_of (loaded file))) as [|Hnot];
        [set_solver|].
      apply elem_of_union_r, elem_of_list_to_set. unfold hrefs.
      apply list_elem_of_In, in_map, list_elem_of_In.
      unfold new_items_of. by rewrite list_elem_of_filter. }
    apply (run_nothing_new env _ soup items); try done.
    + intros [Hempty Hne]. cbn [loaded] in Hempty.
      rewrite seen_of_insert, list_to_set_list_of_set in Hempty.
      destruct items as [|it items]; [done|].
      pose proof (Hin it ltac:(by left)) as Hit. rewrite Hempty in Hit.
      by apply elem_of_empty in Hit.
    + apply new_items_nil. intros it Hit. cbn [loaded].
      rewrite seen_of_insert, list_to_set_list_of_set. by apply Hin.
Qed.

Lemma second_run_is_quiet_witness :
  let file' := state_file (snd (run (sample_env false) (Some sample_state))) in
  run (sample_env false) file' = (Ok tt, mk_world file' [Print NoNewItems]).
Proof.
  apply (second_run_is_quiet (sample_env false) (Some sample_state)).
  - reflexivity.
  - vm_compute. reflexivity.
Defined.

(** X21. A run changes nothing of the state but the list of seen hrefs:
    whatever else the state file holds is written back as it was. *)
Theorem run_keeps_other_keys `{PyRuntime} (env : environment)
    (file : option state) :
  Forall (fun st' => delete SEEN_HREFS st' = delete SEEN_HREFS (loaded file))
         (saves (trace (snd (run env file)))).
Proof.
  destruct (run_cases env file)
    as [(e' & Hrun & _)|(soup & items & Hpage & Hitems & Hcases)];
    cbv zeta in *.
  { rewrite Hrun. constructor. }
  destruct Hcases as [(_ & _ & _ & Hrun)
                     |[(_ & _ & Hrun)
                     |[(_ & it & rest & attempt & _ & Hrun & _ & Hs & _)
                     |[(_ & _ & _ & Hrun)
                      |(_ & _ & _ & st' & attempt & Hrun & Hst & _ & Hs & _)]]]];
    rewrite Hrun; cbn [snd trace]; rewrite ?saves_app, ?Hs; simpl;
    repeat constructor.
  - apply delete_insert_eq.
  - subst st'. apply delete_insert_eq.
Qed.

(** X22. Any run, forced or not, writes the state at most once, calls the
    notifier at most once and sends at most one request. *)
Theorem run_acts_at_most_once `{PyRuntime} (env : environment)
    (file : option state) :
  let tr := trace (snd (run env file)) in
  (length (saves tr) <= 1)%nat
  /\ (length (notifications tr) <= 1)%nat
  /\ (length (posts tr) <= 1)%nat.
Proof.
  cbv zeta.
  destruct (run_cases env file)
    as [(e' & Hrun & _)|(soup & items & Hpage & Hitems & Hcases)];
    cbv zeta in *.
  { rewrite Hrun. simpl. lia. }
  destruct Hcases as [(_ & _ & _ & Hrun)
                     |[(_ & _ & Hrun)
                     |[(_ & it & rest & attempt & _ & Hrun & Hn & Hs & Hp)
                     |[(_ & _ & _ & Hrun)
                      |(_ & _ & _ & st' & attempt & Hrun & _ & Hn & Hs & Hp)]]]];
    rewrite Hrun; cbn [snd trace];
    rewrite ?saves_app, ?notifications_app, ?posts_app, ?Hs, ?Hn;
    simpl; rewrite ?length_app; simpl; lia.
Qed.

(** X23. Without force, a run notifies nothing that is already seen: what
    it passes to the notifier is the non-empty list of the extracted items
    whose href is not in the loaded seen-set, in their order. *)
Theorem run_notifies_only_new `{PyRuntime} (env : environment)
    (file : option state) :
  FORCE_NOTIFY env = false ->
  Forall (fun notified =>
            notified <> []
            /\ Forall (fun it => href it ∉ seen_of (loaded file)) notified
            /\ exists soup items,
                 page env = Ok soup
                 /\ extract_items soup BASE_URL (TOP_N env) = Ok items
                 /\ notified = new_items_of (seen_of (loaded file)) items)
         (notifications (trace (snd (run env file)))).
Proof.
  intros Hforce.
  destruct (run_cases env file)
    as [(e' & Hrun & _)|(soup & items & Hpage & Hitems & Hcases)];
    cbv zeta in *.
  { rewrite Hrun. constructor. }
  destruct Hcases as [(_ & _ & _ & Hrun)
                     |[(Hf & _)|[(Hf & _)
                     |[(_ & _ & _ & Hrun)
                      |(_ & _ & Hnew & st' & attempt & Hrun & _ & Hn & _)]]]];
    try congruence; rewrite Hrun; cbn [snd trace];
    rewrite ?notifications_app, ?Hn; simpl; repeat constructor.
  - done.
  - eapply Forall_impl; [apply new_items_are_new|]. by intros it [? _].
  - by exists soup, items.
Qed.

Lemma run_notifies_only_new_witness :
  Forall (fun notified =>
            notified <> []
            /\ Forall (fun it => href it ∉ seen_of (loaded (Some sample_state)))
                      notified
            /\ exists soup items,
                 page (sample_env false) = Ok soup
                 /\ extract_items soup BASE_URL (TOP_N (sample_env false))
                    = Ok items
                 /\ notified
                    = new_items_of (seen_of (loaded (Some sample_state))) items)
         (notifications
            (trace (snd (run (sample_env false) (Some sample_state))))).
Proof.
  apply (run_notifies_only_new (sample_env false) (Some sample_state)).
  reflexivity.
Defined.

(** X24. The loaded seen-set is empty exactly when there is no state file,
    or the file has no list of seen hrefs, or that list is empty. *)
Theorem seen_set_empty_iff (file : option state) :
  seen_of (loaded file) = ∅ <->
  file = None
  \/ exists st, file = Some st
       /\ (st !! SEEN_HREFS = None \/ st !! SEEN_HREFS = Some []).
Proof.
  assert (Hlist : forall l : list str,
             (list_to_set l : gset str) = ∅ <-> l = []).
  { intros [|x l]; [done|]. split; [|done].
    intros Hempty. assert (x ∈ (∅ : gset str)) as Hx
      by (rewrite <- Hempty; set_solver).
    by apply elem_of_empty in Hx. }
  unfold seen_of. rewrite Hlist. destruct file as [st|]; simpl.
  - destruct (st !! SEEN_HREFS) as [l|] eqn:Hl; simpl.
    + split.
      * intros ->. right. exists st. split; [done|]. by right.
      * intros [|(st' & [= <-] & [Hn|Hs])]; congruence.
    + split; [|done]. intros _. right. exists st. split; [done|]. by left.
  - rewrite lookup_singleton_eq. simpl. split; [by left|done].
Qed.

(* ------------------------------------------------------------------------- *)
(** ** Where the date and the title of an entry come from *)

Section DescribeFacts.
Context `{PyRuntime}.







End DescribeFacts.





(* ------------------------------------------------------------------------- *)
(** ** A forced run makes no use of the loaded state *)

Section ForcedRun.
Context `{PyRuntime}.

Lemma guarded_notify_ignores_state env items f f' t :
  let handler := fun e => print (NotifyFailed e) in
  fst (try_except (notify_feishu env items) handler (mk_world f t))
  = fst (try_except (notify_feishu env items) handler (mk_world f' t))
  /\ trace (snd (try_except (notify_feishu env items) handler (mk_world f t)))
     = trace (snd (try_except (notify_feishu env items) handler
                     (mk_world f' t))).
Proof.
  cbv zeta. unfold try_except. rewrite !notify_feishu_run. cbv zeta.
  simpl state_file. simpl trace.
  destruct (strip (getenv (FEISHU_WEBHOOK_URL env))) as [|c url]; [done|].
  destruct (signing env) as [[ts sg]|e]; [|done].
  by destruct (respond env _ _) as [[]|e].
Qed.

End ForcedRun.

(** X27. Once the state is loaded, a forced run makes no use of it: for
    any two loaded states (of a file that is absent or holds any object of
    lists of strings) the run has the same outcome and does the same things
    in the same order. *)
Theorem forced_run_ignores_state `{PyRuntime} (env : environment)
    (file file' : option state) :
  FORCE_NOTIFY env = true ->
  fst (run env file) = fst (run env file')
  /\ trace (snd (run env file)) = trace (snd (run env file')).
Proof.
  intros Hforce. rewrite !run_unfold.
  destruct (page env) as [soup|e]; [|done].
  destruct (extract_items soup BASE_URL (TOP_N env)) as [items|e]; [|done].
  cbv zeta. rewrite Hforce, !andb_false_r.
  destruct items as [|it rest]; [done|].
  unfold mbind, M_bind.
  destruct (guarded_notify_ignores_state env [it] file file' []) as [Hr Ht].
  destruct (guarded_notify env [it] (mk_world file [])) as (w1 & Hw1 & _).
  destruct (guarded_notify env [it] (mk_world file' [])) as (w2 & Hw2 & _).
  rewrite Hw1, Hw2 in *. simpl in Ht. unfold print, emit. simpl.
  by rewrite Ht.
Qed.

Lemma forced_run_ignores_state_witness :
  fst (run (sample_env_online true) None)
  = fst (run (sample_env_online true) (Some sample_state_current))
  /\ trace (snd (run (sample_env_online true) None))
     = trace (snd (run (sample_env_online true) (Some sample_state_current))).
Proof.
  apply (forced_run_ignores_state (sample_env_online true) None
           (Some sample_state_current)).
  reflexivity.
Defined.

(* ------------------------------------------------------------------------- *)
(** ** The notifier and its configuration *)

Section Configuration.

Lemma strip_nil : strip [] = [].
Proof. reflexivity. Qed.

(** What the notifier reads of a variable is its [setting]. *)
Lemma strip_getenv v : strip (getenv v) = default [] (setting v).
Proof.
  destruct v as [raw|]; simpl; [|apply strip_nil].
  by destruct (strip raw).
Qed.

Lemma setting_nonempty v s : setting v = Some s -> s <> [].
Proof.
  destruct v as [raw|]; simpl; [|done]. by destruct (strip raw); intros [= <-].
Qed.

(** The fields of the envelope, by the secret. *)
Lemma signing_by_setting env :
  match setting (FEISHU_SECRET env) with
  | None => signing env = Ok (None, None)
  | Some secret =>
      match signing env with
      | Ok (ts, sg) =>
          Forall is_scalar secret
          /\ ts = Some (str_of_int (clock env))
          /\ exists s, feishu_sign (str_of_int (clock env)) secret = Ok s
                       /\ sg = Some s
      | Raise e => e = UnicodeEncodeError /\ ~ Forall is_scalar secret
      end
  end.
Proof.
  unfold signing. rewrite strip_getenv.
  destruct (setting (FEISHU_SECRET env)) as [secret|] eqn:Hsecret; [|done].
  apply setting_nonempty in Hsecret. simpl.
  destruct secret as [|c secret]; [done|].
  pose proof (feishu_sign_cases (str_of_int (clock env)) (c :: secret)) as Hs.
  destruct (feishu_sign _ (c :: secret)) as [s|e].
  - destruct Hs as (_ & Hsec & _). split; [done|]. split; [done|]. by exists s.
  - destruct Hs as [-> Hs]. split; [done|].
    intros Hsec. apply Hs. split; [apply str_of_int_scalar|done].
Qed.

End Configuration.

(** C10, as amended. Whether [notify_feishu] sends a request depends on its
    configuration alone, not on the items: it sends none when no webhook is
    configured (the variable unset, empty or blank), where it returns at
    once, and when the configured secret cannot be encoded, where it raises
    [UnicodeEncodeError] before the request; otherwise it sends exactly one
    request to the webhook, for every list of items, the empty one
    included, whose text is then the source label with its header, an empty
    line and the line of the source URL. *)
Theorem notify_feishu_noop_iff_no_webhook (env : environment)
    (items : list item) (w : world) (r : result unit) (w' : world) :
  notify_feishu env items w = (r, w') ->
  let entered := trace w ++ [EnterNotify items] in
  let unencodable :=
    exists secret, setting (FEISHU_SECRET env) = Some secret
                   /\ ~ Forall is_scalar secret in
  (posts (trace w') = posts (trace w)
   <-> setting (FEISHU_WEBHOOK_URL env) = None \/ unencodable)
  /\ match setting (FEISHU_WEBHOOK_URL env) with
     | None => r = Ok tt /\ w' = mk_world (state_file w) entered
     | Some url =>
         (unencodable ->
          r = Raise UnicodeEncodeError
          /\ w' = mk_world (state_file w) entered)
         /\ (~ unencodable ->
             exists ts sg,
               match setting (FEISHU_SECRET env) with
               | None => ts = None /\ sg = None
               | Some secret =>
                   ts = Some (str_of_int (clock env))
                   /\ exists s,
                        feishu_sign (str_of_int (clock env)) secret = Ok s
                        /\ sg = Some s
               end
               /\ let body := mk_payload MSG_TEXT (digest items) ts sg in
                  r = respond env url body
                  /\ w' = mk_world (state_file w)
                                   (entered ++ [Post url body]))
     end
  /\ digest [] = SOURCE_NAME ++ DIGEST_HEAD ++ [NEWLINE]
                 ++ [NEWLINE] ++ DIGEST_SOURCE ++ BASE_URL.
Proof.
  intros Hrun. cbv zeta.
  rewrite notify_feishu_run, strip_getenv in Hrun. cbv zeta in Hrun.
  pose proof (signing_by_setting env) as Hsign.
  assert (Hgrow : forall (l : list (str * payload)) x, l ++ [x] <> l).
  { intros l x Heq. apply (f_equal length) in Heq.
    rewrite length_app in Heq. simpl in Heq. lia. }
  split; [|split; [|reflexivity]].
  - destruct (setting (FEISHU_WEBHOOK_URL env)) as [url|] eqn:Hurl; simpl in Hrun.
    + pose proof (setting_nonempty _ _ Hurl) as Hne.
      destruct url as [|c url]; [done|].
      destruct (setting (FEISHU_SECRET env)) as [secret|].
      * destruct (signing env) as [[ts sg]|e].
        -- injection Hrun as _ <-. simpl. rewrite !posts_app. simpl.
           rewrite app_nil_r. split; [by intros ?%Hgrow|].
           intros [?|(secret' & [= <-] & Hbad)]; [done|].
           destruct Hsign as [Hsec _]. by destruct Hbad.
        -- injection Hrun as _ <-. simpl. rewrite posts_app. simpl.
           rewrite app_nil_r. split; [|done]. intros _. right.
           exists secret. by destruct Hsign.
      * rewrite Hsign in Hrun. injection Hrun as _ <-. simpl.
        rewrite !posts_app. simpl. rewrite app_nil_r.
        split; [by intros ?%Hgrow|]. by intros [?|(? & ? & _)].
    + injection Hrun as _ <-. simpl. rewrite posts_app. simpl.
      rewrite app_nil_r. split; [by left|done].
  - destruct (setting (FEISHU_WEBHOOK_URL env)) as [url|] eqn:Hurl; simpl in Hrun.
    + pose proof (setting_nonempty _ _ Hurl) as Hne.
      destruct url as [|c url]; [done|].
      destruct (setting (FEISHU_SECRET env)) as [secret|].
      * destruct (signing env) as [[ts sg]|e].
        -- destruct Hsign as (Hsec & Hts & s & Hs & Hsg).
           injection Hrun as <- <-. split.
           ++ intros (secret' & [= <-] & Hbad). by destruct Hbad.
           ++ intros _. exists ts, sg. split; [|done]. split; [done|]. by exists s.
        -- destruct Hsign as [-> Hbad]. injection Hrun as <- <-. split; [done|].
           intros Hgood. destruct Hgood. by exists secret.
      * rewrite Hsign in Hrun. injection Hrun as <- <-. split.
        -- by intros (? & ? & _).
        -- intros _. by exists None, None.
    + by injection Hrun as <- <-.
Qed.

Lemma notify_feishu_noop_iff_no_webhook_witness :
  let env := sample_env_unsigned in
  let url := U "https://open.feishu.cn/hook/1" in
  let body := mk_payload MSG_TEXT (digest []) None None in
  let w := mk_world None [] in
  let w' := mk_world None [EnterNotify []; Post url body] in
  let unencodable :=
    exists secret, setting (FEISHU_SECRET env) = Some secret
                   /\ ~ Forall is_scalar secret in
  notify_feishu env [] w = (Ok tt, w')
  /\ (posts (trace w') = posts (trace w)
      <-> setting (FEISHU_WEBHOOK_URL env) = None \/ unencodable)
  /\ ((unencodable ->
       Ok tt = Raise UnicodeEncodeError
       /\ w' = mk_world None [EnterNotify []])
      /\ (~ unencodable ->
          exists ts sg,
            (ts = None /\ sg = None)
            /\ Ok tt = respond env url (mk_payload MSG_TEXT (digest []) ts sg)
            /\ w' = mk_world None
                      [EnterNotify [];
                       Post url (mk_payload MSG_TEXT (digest []) ts sg)]))
  /\ digest [] = SOURCE_NAME ++ DIGEST_HEAD ++ [NEWLINE]
                 ++ [NEWLINE] ++ DIGEST_SOURCE ++ BASE_URL.
Proof.
  cbv zeta. split; [vm_compute; reflexivity|].
  exact (notify_feishu_noop_iff_no_webhook sample_env_unsigned []
           (mk_world None []) (Ok tt)
           (mk_world None
              [EnterNotify [];
               Post (U "https://open.feishu.cn/hook/1")
                    (mk_payload MSG_TEXT (digest []) None None)])
           eq_refl).
Defined.

(** C10 as stated fails: here a webhook is configured and no request is
    sent, for the empty list of items as for any other; the secret cannot
    be encoded, and the signing raises before the request. *)
Lemma notify_feishu_webhook_without_post :
  setting (FEISHU_WEBHOOK_URL sample_env_bad_secret)
  = Some (U "https://open.feishu.cn/hook/1")
  /\ notify_feishu sample_env_bad_secret [] (mk_world None [])
     = (Raise UnicodeEncodeError, mk_world None [EnterNotify []])
  /\ posts (trace (snd (notify_feishu sample_env_bad_secret []
                          (mk_world None [])))) = [].
Proof. repeat split; vm_compute; reflexivity. Qed.
